(** * createUserProfile: the Firestore profile provisioner

    A shallow embedding of [functions_js/index.js]: the auth [onCreate]
    trigger that writes the default [users/{uid}] document.  JavaScript
    values, promises and the Firestore client are modelled as explicit
    state; the platform and the store are the environment, whose moves are
    the actions of a step function. *)

From Stdlib Require Import ZArith Ascii String List Bool Lia.
From stdpp Require Import base option list gmap strings fin_maps.

Local Open Scope Z_scope.
Local Open Scope string_scope.
Local Open Scope list_scope.

(** ** JavaScript values *)

(** Reasons a call can throw or a promise can be rejected. *)
Inductive error :=
| AppNotInitialized                  (* admin.firestore() with no default app *)
| InvalidDocumentPath                (* doc(id) refused the id *)
| InvalidData                        (* set(data) refused a field value *)
| StoreError (code : string).        (* the backend refused or lost the write *)

(** Primitive values: what the fields of an account record hold. *)
Inductive prim :=
| VUndefined
| VNull
| VBool (b : bool)
| VNum (n : Z)
| VNaN
| VStr (s : string).

(** Values: primitives and the objects the function handles. *)
Inductive value :=
| VPrim (v : prim)
| VServerTimestamp                   (* FieldValue.serverTimestamp() *)
| VWriteResult (t : Z)               (* what set()'s promise resolves with *)
| VPromise (p : nat).                (* a promise, by its identity *)

(** ToBoolean on primitives: the falsy values are undefined, null, false, 0,
    NaN and the empty string. *)
Definition truthy (v : prim) : bool :=
  match v with
  | VUndefined | VNull | VNaN => false
  | VBool b => b
  | VNum n => negb (n =? 0)%Z
  | VStr s => negb (String.eqb s "")
  end.

(** [a || b] with a right operand that has no effects. *)
Definition js_or (a b : prim) : prim := if truthy a then a else b.

(** An account record is a finite map from property names to primitives;
    reading a property that is not there gives undefined. *)
Abbreviation object := (gmap string prim).

Definition get (o : object) (k : string) : prim := default VUndefined (o !! k).

(** ** Firestore documents *)

(** A stored field value: what a field holds once the write is committed. *)
Inductive stored :=
| SNull
| SBool (b : bool)
| SInt (n : Z)
| SNaN
| SString (s : string)
| STimestamp (t : Z).

Abbreviation document := (gmap string stored).

(** The store's encoding of a field at commit time [t]: the sentinel becomes
    the commit time, plain values are kept, anything else is not a Firestore
    value. *)
Definition encode (t : Z) (v : value) : option stored :=
  match v with
  | VPrim VNull => Some SNull
  | VPrim (VBool b) => Some (SBool b)
  | VPrim (VNum n) => Some (SInt n)
  | VPrim VNaN => Some SNaN
  | VPrim (VStr s) => Some (SString s)
  | VServerTimestamp => Some (STimestamp t)
  | VPrim VUndefined | VWriteResult _ | VPromise _ => None
  end.

Definition storable (v : value) : bool :=
  match encode 0 v with Some _ => true | None => false end.

Definition encode_field (t : Z) (d : document) (kv : string * value) : document :=
  match encode t kv.2 with
  | Some s => <[kv.1 := s]> d
  | None => d
  end.

(** The document a payload becomes when committed at time [t]. *)
Definition encode_doc (t : Z) (data : list (string * value)) : document :=
  foldl (encode_field t) ∅ data.

(** ** The world: the function's process and the store *)

Record write_request := WriteRequest {
  wr_path : string;
  wr_data : list (string * value)
}.

Inductive promise_state :=
| Pending
| Fulfilled (v : value)
| Rejected (e : error).

Record world := World {
  app_initialized : bool;                 (* admin.initializeApp() has run *)
  local_clock : Z;                        (* the process's own clock *)
  docs : gmap string document;            (* the store: path to document *)
  promises : list promise_state;          (* promise i is the i-th entry *)
  inflight : list (nat * write_request);  (* writes sent, not yet answered *)
  reactions : list (nat * nat)            (* (q, p): p adopts q's outcome *)
}.

Definition with_app (b : bool) (w : world) : world :=
  World b (local_clock w) (docs w) (promises w) (inflight w) (reactions w).

Definition with_clock (now : Z) (w : world) : world :=
  World (app_initialized w) now (docs w) (promises w) (inflight w) (reactions w).

Definition with_docs (d : gmap string document) (w : world) : world :=
  World (app_initialized w) (local_clock w) d (promises w) (inflight w) (reactions w).

Definition with_promises (ps : list promise_state) (w : world) : world :=
  World (app_initialized w) (local_clock w) (docs w) ps (inflight w) (reactions w).

Definition with_inflight (fl : list (nat * write_request)) (w : world) : world :=
  World (app_initialized w) (local_clock w) (docs w) (promises w) fl (reactions w).

Definition with_reactions (rs : list (nat * nat)) (w : world) : world :=
  World (app_initialized w) (local_clock w) (docs w) (promises w) (inflight w) rs.

(** ** Synchronous code: state and exceptions *)

Inductive completion (A : Type) :=
| Normal (a : A)
| Throw (e : error).

Arguments Normal {A} a.
Arguments Throw {A} e.

Definition js (A : Type) : Type := world -> completion A * world.

Definition js_ret {A} (a : A) : js A := fun w => (Normal a, w).

Definition js_throw {A} (e : error) : js A := fun w => (Throw e, w).

Definition js_bind {A B} (m : js A) (f : A -> js B) : js B := fun w =>
  match m w with
  | (Normal a, w1) => f a w1
  | (Throw e, w1) => (Throw e, w1)
  end.

Notation "'let*' x ':=' m 'in' k" := (js_bind m (fun x => k))
  (at level 10, x name, m at level 100, k at level 200).

(** ** Promises *)

Definition new_promise : js nat := fun w =>
  (Normal (length (promises w)), with_promises (promises w ++ [Pending]) w).

(** A promise settles once: settling a promise that is not pending changes
    nothing. *)
Definition settle (p : nat) (o : promise_state) (w : world) : world :=
  match promises w !! p with
  | Some Pending => with_promises (<[p := o]> (promises w)) w
  | _ => w
  end.

(** Resolving [p] with the promise [q]: [p] stays pending and takes [q]'s
    outcome in a later job. *)
Definition adopt (q p : nat) (w : world) : world :=
  with_reactions (reactions w ++ [(q, p)]) w.

(** Calling an [async] function: the call returns a promise at once; the
    body's completion decides how that promise is resolved. *)
Definition async (body : js value) : js value := fun w =>
  match new_promise w with
  | (Normal p, w0) =>
      match body w0 with
      | (Throw e, w1) => (Normal (VPromise p), settle p (Rejected e) w1)
      | (Normal (VPromise q), w1) => (Normal (VPromise p), adopt q p w1)
      | (Normal v, w1) => (Normal (VPromise p), settle p (Fulfilled v) w1)
      end
  | (Throw e, w0) => (Throw e, w0)
  end.

(** ** The Admin SDK and the Firestore client *)

Module admin.

(** [admin.initializeApp()]: creates the process-wide default app. *)
Definition initializeApp : js unit := fun w => (Normal tt, with_app true w).

(** The client handle returned by [admin.firestore()]. *)
Inductive Firestore := FirestoreClient.

(** [admin.firestore()]: the client of the default app. *)
Definition firestore : js Firestore := fun w =>
  if app_initialized w then (Normal FirestoreClient, w)
  else (Throw AppNotInitialized, w).

(** [admin.firestore.FieldValue.serverTimestamp()]. *)
Definition serverTimestamp : value := VServerTimestamp.

End admin.

Module Firestore.

Record CollectionReference := { col_path : string }.
Record DocumentReference := { doc_path : string }.

(** [db.collection(name)]. *)
Definition collection (db : admin.Firestore) (name : string) : CollectionReference :=
  {| col_path := name |}.

Section Client.

(** Which document ids the client accepts is the store's rule, not the
    function's. *)
Variable valid_doc_id : string -> bool.

(** [coll.doc(id)]: a reference to the document [coll/id]; throws when
    the id is not a string the store accepts.  [coll/id] is the document the
    client addresses when the id is a single path segment. *)
Definition doc (c : CollectionReference) (id : prim) : js DocumentReference :=
  match id with
  | VStr s =>
      if valid_doc_id s
      then js_ret {| doc_path := col_path c ++ "/" ++ s |}
      else js_throw InvalidDocumentPath
  | _ => js_throw InvalidDocumentPath
  end.

End Client.

(** [ref.set(data)] with no options: throws when a field is not a Firestore
    value; otherwise sends the write and returns the promise of its
    answer. *)
Definition set (ref : DocumentReference) (data : list (string * value)) : js value :=
  if forallb (fun kv => storable kv.2) data
  then
    let* p := new_promise in
    fun w => (Normal (VPromise p),
              with_inflight (inflight w ++ [(p, WriteRequest (doc_path ref) data)]) w)
  else js_throw InvalidData.

(** The store commits a [set]: the document at the path is replaced by the
    encoded payload. *)
Definition commit (req : write_request) (t : Z) (w : world) : world :=
  with_docs (<[wr_path req := encode_doc t (wr_data req)]> (docs w)) w.

End Firestore.

(** ** Sample stores and events *)

(** An id that is a single path segment: no ['/'] in it. *)
Fixpoint single_segment (s : string) : bool :=
  match s with
  | EmptyString => true
  | String c rest => negb (Ascii.eqb c "/"%char) && single_segment rest
  end.

(** A store that refuses the empty id. *)
Definition nonempty_id (s : string) : bool := negb (String.eqb s "").

(** [{uid: "abc123", email: "a@example.com", displayName: "Ada"}] *)
Definition ada : object :=
  <["uid" := VStr "abc123"]>
    (<["email" := VStr "a@example.com"]> (<["displayName" := VStr "Ada"]> ∅)).

(** [{uid: "xyz789", email: null, displayName: null}] *)
Definition anonymous : object :=
  <["uid" := VStr "xyz789"]> (<["email" := VNull]> (<["displayName" := VNull]> ∅)).

(** [{uid: "m1", email: "m@example.com"}]: no display name. *)
Definition mail_only : object :=
  <["uid" := VStr "m1"]> (<["email" := VStr "m@example.com"]> ∅).

(** [{uid: "e0", email: "", displayName: ""}]: both present and empty. *)
Definition empty_strings : object :=
  <["uid" := VStr "e0"]> (<["email" := VStr ""]> (<["displayName" := VStr ""]> ∅)).

(** [{uid: "e1", email: ""}]: an empty email and no display name. *)
Definition empty_email : object :=
  <["uid" := VStr "e1"]> (<["email" := VStr ""]> ∅).

(** [{uid: ""}]: an empty identifier. *)
Definition blank_uid : object := <["uid" := VStr ""]> ∅.

(** [{email: "n@example.com"}]: no identifier at all. *)
Definition no_uid : object := <["email" := VStr "n@example.com"]> ∅.

(** Ada's record with one more property. *)
Definition ada_with_photo : object := <["photoURL" := VStr "ada.png"]> ada.

(** A store in which Ada's document already exists, with 50 coins and a
    field of its own. *)
Definition stale_store : gmap string document :=
  <["users/abc123" := <["coin" := SInt 50]> (<["level" := SInt 3]> ∅)]> ∅.

(** [{uid: "bob42", email: "bob@example.com"}]: another account. *)
Definition bob : object :=
  <["uid" := VStr "bob42"]> (<["email" := VStr "bob@example.com"]> ∅).

(** A process in which [admin.initializeApp()] has not run. *)
Definition unloaded (now : Z) (store0 : gmap string document) : world :=
  World false now store0 [] [] [].

(** ** functions_js/index.js *)

Section Provisioner.

(** The store's rule for document ids. *)
Variable valid_doc_id : string -> bool.

(** Module load: [admin.initializeApp();]. *)
Definition module_load : js unit := admin.initializeApp.

(** The object literal handed to [set]. *)
Definition profile_data (user : object) : list (string * value) :=
  [ ("email", VPrim (js_or (get user "email") VNull));
    ("displayName", VPrim (js_or (get user "displayName") VNull));
    ("coin", VPrim (VNum 0));
    ("createdAt", admin.serverTimestamp) ].

(** The body of the [async (user) => { ... }] arrow function. *)
Definition createUserProfile_body (user : object) : js value :=
  let* db := admin.firestore in
  let* ref := Firestore.doc valid_doc_id (Firestore.collection db "users") (get user "uid") in
  Firestore.set ref (profile_data user).

(** [functions.auth.user().onCreate(handler)]: the platform calls the handler
    with the new account's record and waits for the promise it returns. *)
Definition onCreate (handler : object -> js value) (user : object) : js value :=
  handler user.

Definition createUserProfile : object -> js value :=
  onCreate (fun user => async (createUserProfile_body user)).

(** ** The environment: platform, store and job queue *)

Inductive action :=
| Deliver (user : object)            (* the platform delivers an account-created event *)
| StoreAck (p : nat) (t : Z)         (* the store commits write [p] at its time [t] *)
| StoreNack (p : nat) (e : error)    (* write [p] fails for good: set()'s promise is rejected *)
| Job (q p : nat)                    (* the job that gives [p] the outcome of [q] *)
| ClockTick (now : Z).               (* the process's clock moves *)

Fixpoint find_write (p : nat) (fl : list (nat * write_request)) : option write_request :=
  match fl with
  | [] => None
  | (q, req) :: rest => if Nat.eqb q p then Some req else find_write p rest
  end.

Fixpoint drop_write (p : nat) (fl : list (nat * write_request)) : list (nat * write_request) :=
  match fl with
  | [] => []
  | (q, req) :: rest => if Nat.eqb q p then drop_write p rest else (q, req) :: drop_write p rest
  end.

Fixpoint has_reaction (q p : nat) (rs : list (nat * nat)) : bool :=
  match rs with
  | [] => false
  | (q', p') :: rest => (Nat.eqb q' q && Nat.eqb p' p) || has_reaction q p rest
  end.

Fixpoint drop_reaction (q p : nat) (rs : list (nat * nat)) : list (nat * nat) :=
  match rs with
  | [] => []
  | (q', p') :: rest =>
      if Nat.eqb q' q && Nat.eqb p' p then drop_reaction q p rest
      else (q', p') :: drop_reaction q p rest
  end.

Definition step (a : action) (w : world) : option world :=
  match a with
  | Deliver user => Some (createUserProfile user w).2
  | StoreAck p t =>
      match find_write p (inflight w) with
      | Some req =>
          Some (settle p (Fulfilled (VWriteResult t))
                  (Firestore.commit req t (with_inflight (drop_write p (inflight w)) w)))
      | None => None
      end
  | StoreNack p e =>
      match find_write p (inflight w) with
      | Some _ => Some (settle p (Rejected e) (with_inflight (drop_write p (inflight w)) w))
      | None => None
      end
  | Job q p =>
      if has_reaction q p (reactions w) then
        match promises w !! q with
        | Some Pending | None => None
        | Some o => Some (settle p o (with_reactions (drop_reaction q p (reactions w)) w))
        end
      else None
  | ClockTick now => Some (with_clock now w)
  end.

Fixpoint run (acts : list action) (w : world) : option world :=
  match acts with
  | [] => Some w
  | a :: rest =>
      match step a w with
      | Some w1 => run rest w1
      | None => None
      end
  end.

(** A process right after it has loaded the module, over a store holding
    [store0]. *)
Definition boot (now : Z) (store0 : gmap string document) : world :=
  (module_load (World false now store0 [] [] [])).2.

Inductive reachable : world -> Prop :=
| reachable_boot now store0 : reachable (boot now store0)
| reachable_step a w w1 : reachable w -> step a w = Some w1 -> reachable w1.

(** What the platform sees of an invocation: the state of its promise. *)
Definition promise_of (v : value) (w : world) : option promise_state :=
  match v with
  | VPromise p => promises w !! p
  | _ => None
  end.

(** The world after a history, or the world itself when some action of the
    history was not enabled. *)
Definition after (acts : list action) (w : world) : world :=
  default w (run acts w).

(** The promise that [p] adopted, if any. *)
Fixpoint adopted_by (p : nat) (rs : list (nat * nat)) : option nat :=
  match rs with
  | [] => None
  | (q, p') :: rest => if Nat.eqb p' p then Some q else adopted_by p rest
  end.

(** The write an invocation is waiting for: the promise its own promise
    adopted, with the request sent under it. *)
Definition awaited_write (h : value) (w : world) : option (nat * write_request) :=
  match h with
  | VPromise p =>
      match adopted_by p (reactions w) with
      | Some q =>
          match find_write q (inflight w) with
          | Some req => Some (q, req)
          | None => None
          end
      | None => None
      end
  | _ => None
  end.

(** The world after a call that sent [req]: two new promises, the call's own
    and the write's, the first adopting the second. *)
Definition sent_world (w : world) (req : write_request) : world :=
  World (app_initialized w) (local_clock w) (docs w)
        (promises w ++ [Pending; Pending])
        (inflight w ++ [(S (length (promises w)), req)])
        (reactions w ++ [(S (length (promises w)), length (promises w))]).

(** The world after a call whose body threw [e]: one new promise, rejected. *)
Definition refused_world (w : world) (e : error) : world :=
  with_promises (promises w ++ [Rejected e]) w.

(** A document with exactly the four profile fields, a zero balance and a
    creation time. *)
Definition profile_shaped (d : document) : Prop :=
  dom d = ({["email"; "displayName"; "coin"; "createdAt"]} : gset string)
  /\ d !! "coin" = Some (SInt 0)
  /\ exists t, d !! "createdAt" = Some (STimestamp t).

(** Every promise named by a pending write or a reaction exists, the app is
    initialised, and every pending write carries a profile. *)
Definition wf (w : world) : Prop :=
  app_initialized w = true
  /\ (forall p req, find_write p (inflight w) = Some req ->
        (p < length (promises w))%nat
        /\ forall t, profile_shaped (encode_doc t (wr_data req)))
  /\ (forall q p, has_reaction q p (reactions w) = true ->
        (q < length (promises w))%nat /\ (p < length (promises w))%nat).

(** The store's answer to write [p] in a history of actions, if it has
    answered. *)
Fixpoint write_answer (p : nat) (acts : list action) : option promise_state :=
  match acts with
  | [] => None
  | StoreAck q t :: rest =>
      if Nat.eqb q p then Some (Fulfilled (VWriteResult t)) else write_answer p rest
  | StoreNack q e :: rest =>
      if Nat.eqb q p then Some (Rejected e) else write_answer p rest
  | _ :: rest => write_answer p rest
  end.

(** The invariant of one invocation: its promise [ph] adopted the write's
    promise [pw] and nothing else can settle either of them; both stay
    pending while the write [req] is in flight, and once the store has
    answered, [pw] holds the answer and [ph] holds it after the job. *)
Definition tracks (ph pw : nat) (req : write_request) (acts : list action)
    (w : world) : Prop :=
  ph <> pw
  /\ (forall q, has_reaction q ph (reactions w) = true -> q = pw)
  /\ find_write ph (inflight w) = None
  /\ (forall q, has_reaction q pw (reactions w) = false)
  /\ match write_answer pw acts with
     | None =>
         promises w !! ph = Some Pending
         /\ promises w !! pw = Some Pending
         /\ find_write pw (inflight w) = Some req
         /\ has_reaction pw ph (reactions w) = true
     | Some o =>
         o <> Pending
         /\ promises w !! pw = Some o
         /\ find_write pw (inflight w) = None
         /\ ((promises w !! ph = Some Pending
              /\ has_reaction pw ph (reactions w) = true)
             \/ (promises w !! ph = Some o /\ In (Job pw ph) acts))
         /\ (forall v, o = Fulfilled v ->
               exists d, docs w !! wr_path req = Some d /\ profile_shaped d)
     end.

(** One event handled with nobody else acting: the call, the store's commit
    at time [t], and the job that settles the call's promise. *)
Definition succeed_alone (user : object) (t : Z) (w : world) : option world :=
  match createUserProfile user w with
  | (Normal (VPromise ph), w1) =>
      match awaited_write (VPromise ph) w1 with
      | Some (pw, _) => run [StoreAck pw t; Job pw ph] w1
      | None => None
      end
  | _ => None
  end.

(** ** Pending writes and reactions as association lists *)

Lemma find_write_app p fl q req :
  find_write p (fl ++ [(q, req)]) =
  match find_write p fl with
  | Some r => Some r
  | None => if Nat.eqb q p then Some req else None
  end.
Proof.
  induction fl as [|[q' r'] fl IH]; simpl; [done|].
  destruct (Nat.eqb q' p); [done|apply IH].
Qed.

Lemma find_write_drop_eq p fl : find_write p (drop_write p fl) = None.
Proof.
  induction fl as [|[q r] fl IH]; simpl; [done|].
  destruct (Nat.eqb q p) eqn:E; simpl; [done|]. by rewrite E.
Qed.

Lemma find_write_drop_ne p q fl :
  p <> q -> find_write p (drop_write q fl) = find_write p fl.
Proof.
  intros Hne. induction fl as [|[q' r] fl IH]; simpl; [done|].
  destruct (Nat.eqb q' q) eqn:E; simpl.
  - apply Nat.eqb_eq in E. subst q'.
    destruct (Nat.eqb q p) eqn:E2; [apply Nat.eqb_eq in E2; congruence|done].
  - by rewrite IH.
Qed.

Lemma find_write_drop_Some p q fl req :
  find_write p (drop_write q fl) = Some req -> find_write p fl = Some req /\ p <> q.
Proof.
  intros H. destruct (decide (p = q)) as [->|Hne].
  - by rewrite find_write_drop_eq in H.
  - by rewrite find_write_drop_ne in H.
Qed.

Lemma has_reaction_app q p rs q' p' :
  has_reaction q p (rs ++ [(q', p')]) =
  has_reaction q p rs || (Nat.eqb q' q && Nat.eqb p' p).
Proof.
  induction rs as [|[a b] rs IH]; simpl; [by rewrite orb_false_r|].
  by rewrite IH, orb_assoc.
Qed.

Lemma has_reaction_drop q p q' p' rs :
  has_reaction q p (drop_reaction q' p' rs) = true -> has_reaction q p rs = true.
Proof.
  induction rs as [|[a b] rs IH]; simpl; [done|].
  destruct (Nat.eqb a q' && Nat.eqb b p') eqn:E; simpl.
  - intros H. rewrite (IH H). apply orb_true_r.
  - intros [H|H]%orb_true_iff; [by rewrite H|]. rewrite (IH H). apply orb_true_r.
Qed.

Lemma has_reaction_drop_ne q p q' p' rs :
  (q, p) <> (q', p') ->
  has_reaction q p (drop_reaction q' p' rs) = has_reaction q p rs.
Proof.
  intros Hne. induction rs as [|[a b] rs IH]; simpl; [done|].
  destruct (Nat.eqb a q' && Nat.eqb b p') eqn:E; simpl.
  - apply andb_true_iff in E as [->%Nat.eqb_eq ->%Nat.eqb_eq].
    rewrite IH. destruct (Nat.eqb q' q && Nat.eqb p' p) eqn:E2; [|done].
    apply andb_true_iff in E2 as [->%Nat.eqb_eq ->%Nat.eqb_eq]. done.
  - by rewrite IH.
Qed.

Lemma adopted_by_app p rs q' p' :
  adopted_by p (rs ++ [(q', p')]) =
  match adopted_by p rs with
  | Some q => Some q
  | None => if Nat.eqb p' p then Some q' else None
  end.
Proof.
  induction rs as [|[a b] rs IH]; simpl; [done|].
  destruct (Nat.eqb b p); [done|apply IH].
Qed.

Lemma adopted_by_None p rs :
  (forall q, has_reaction q p rs = false) -> adopted_by p rs = None.
Proof.
  induction rs as [|[a b] rs IH]; simpl; [done|]. intros H.
  destruct (Nat.eqb b p) eqn:E.
  - specialize (H a). simpl in H. rewrite Nat.eqb_refl in H. done.
  - apply IH. intros q. specialize (H q). simpl in H.
    by apply orb_false_iff in H as [_ H].
Qed.

(** ** Settling promises *)

Lemma settle_fields p o w :
  app_initialized (settle p o w) = app_initialized w
  /\ local_clock (settle p o w) = local_clock w
  /\ docs (settle p o w) = docs w
  /\ inflight (settle p o w) = inflight w
  /\ reactions (settle p o w) = reactions w
  /\ length (promises (settle p o w)) = length (promises w).
Proof.
  unfold settle. destruct (promises w !! p) as [[]|]; simpl; repeat split; try done.
  apply length_insert.
Qed.

Lemma settle_other p o w p' :
  p' <> p -> promises (settle p o w) !! p' = promises w !! p'.
Proof.
  intros Hne. unfold settle. destruct (promises w !! p) as [[]|]; simpl; try done.
  by apply list_lookup_insert_ne.
Qed.

Lemma settle_pending p o w :
  promises w !! p = Some Pending -> promises (settle p o w) !! p = Some o.
Proof.
  intros H. unfold settle. rewrite H. simpl.
  apply list_lookup_insert_eq. by eapply lookup_lt_Some.
Qed.

Lemma settle_settled p o w s :
  promises w !! p = Some s -> s <> Pending -> settle p o w = w.
Proof. intros H Hs. unfold settle. rewrite H. by destruct s. Qed.

(** ** What one call does *)

Lemma profile_data_storable user :
  forallb (fun kv => storable kv.2) (profile_data user) = true.
Proof.
  unfold profile_data, js_or. cbn [forallb snd].
  destruct (truthy (get user "email")) eqn:E1;
    destruct (truthy (get user "displayName")) eqn:E2;
    destruct (get user "email"); destruct (get user "displayName"); done.
Qed.

Lemma createUserProfile_body_call user w :
  app_initialized w = true ->
  (exists u,
      get user "uid" = VStr u /\ valid_doc_id u = true
      /\ createUserProfile_body user w =
         (Normal (VPromise (length (promises w))),
          with_inflight
            (inflight w ++ [(length (promises w),
                             WriteRequest ("users/" ++ u) (profile_data user))])
            (with_promises (promises w ++ [Pending]) w)))
  \/ ((forall u, get user "uid" = VStr u -> valid_doc_id u = false)
      /\ createUserProfile_body user w = (Throw InvalidDocumentPath, w)).
Proof.
  intros Hinit.
  unfold createUserProfile_body, js_bind, admin.firestore. rewrite Hinit.
  unfold Firestore.doc, Firestore.collection.
  destruct (get user "uid") as [| | | | |u] eqn:Huid;
    try (right; split; [intros ? [=]|done]).
  destruct (valid_doc_id u) eqn:Hv.
  - unfold js_ret, Firestore.set. rewrite profile_data_storable.
    left. exists u. repeat split; done.
  - right. split; [|done]. by intros ? [= ->].
Qed.

Lemma createUserProfile_call user w :
  app_initialized w = true ->
  (exists u,
      get user "uid" = VStr u /\ valid_doc_id u = true
      /\ createUserProfile user w =
         (Normal (VPromise (length (promises w))),
          sent_world w (WriteRequest ("users/" ++ u) (profile_data user))))
  \/ ((forall u, get user "uid" = VStr u -> valid_doc_id u = false)
      /\ createUserProfile user w =
         (Normal (VPromise (length (promises w))),
          refused_world w InvalidDocumentPath)).
Proof.
  intros Hinit.
  unfold createUserProfile, onCreate, async, new_promise.
  destruct (createUserProfile_body_call user
              (with_promises (promises w ++ [Pending]) w) Hinit)
    as [(u & Hu & Hv & Hb)|(He & Hb)]; rewrite Hb.
  - left. exists u. repeat split; try done.
    unfold adopt, sent_world. simpl.
    rewrite length_app, Nat.add_1_r, <- app_assoc. done.
  - right. split; [done|].
    unfold settle, refused_world. simpl.
    rewrite lookup_app_r, Nat.sub_diag by lia. simpl.
    rewrite insert_app_r_alt, Nat.sub_diag by lia. done.
Qed.

(** ** The encoded profile *)

(** What the store keeps for a field computed as [v || null]: the value
    itself when it is truthy, null otherwise. *)
Lemma encode_or_null v t :
  encode t (VPrim (js_or v VNull)) =
  Some (if truthy v then default SNull (encode t (VPrim v)) else SNull).
Proof. unfold js_or. destruct (truthy v) eqn:E; destruct v; done. Qed.

Lemma encode_doc_profile user t :
  encode_doc t (profile_data user) =
  <["createdAt" := STimestamp t]>
    (<["coin" := SInt 0]>
       (<["displayName" :=
            if truthy (get user "displayName")
            then default SNull (encode t (VPrim (get user "displayName")))
            else SNull]>
          (<["email" :=
               if truthy (get user "email")
               then default SNull (encode t (VPrim (get user "email")))
               else SNull]> ∅))).
Proof.
  unfold encode_doc, profile_data. cbn [foldl].
  unfold encode_field. cbn [fst snd]. rewrite !encode_or_null. done.
Qed.

Lemma profile_shaped_inserts e n t :
  profile_shaped
    (<["createdAt" := STimestamp t]>
       (<["coin" := SInt 0]> (<["displayName" := n]> (<["email" := e]> ∅)))).
Proof.
  split; [|split].
  - rewrite !dom_insert_L, dom_empty_L. set_solver.
  - rewrite lookup_insert_ne by done. apply lookup_insert_eq.
  - exists t. apply lookup_insert_eq.
Qed.

Lemma profile_data_shaped user t :
  profile_shaped (encode_doc t (profile_data user)).
Proof. rewrite encode_doc_profile. apply profile_shaped_inserts. Qed.

(** ** Well-formed worlds *)

Lemma wf_boot now store0 : wf (boot now store0).
Proof. repeat split; simpl; intros; discriminate. Qed.

Lemma wf_settle p o w : wf w -> wf (settle p o w).
Proof.
  intros (Hi & Hf & Hr).
  destruct (settle_fields p o w) as (E1 & _ & _ & E4 & E5 & E6).
  unfold wf. rewrite E1, E4, E5, E6. done.
Qed.

Lemma wf_call user w : wf w -> wf (createUserProfile user w).2.
Proof.
  intros (Hi & Hf & Hr).
  destruct (createUserProfile_call user w Hi)
    as [(u & Hu & Hv & ->)|(_ & ->)]; simpl.
  - split; [done|]. split; simpl.
    + intros p req. rewrite find_write_app, length_app. cbn [length].
      destruct (find_write p (inflight w)) as [r|] eqn:E.
      * intros [= <-]. destruct (Hf _ _ E). split; [lia|auto].
      * destruct (Nat.eqb_spec (S (length (promises w))) p); [|done].
        intros [= <-]. split; [lia|]. intros t. simpl.
        apply profile_data_shaped.
    + intros q p. rewrite has_reaction_app, length_app. cbn [length].
      intros [H|H]%orb_true_iff.
      * destruct (Hr _ _ H). lia.
      * apply andb_true_iff in H as [H1%Nat.eqb_eq H2%Nat.eqb_eq]. lia.
  - split; [done|]. split; simpl.
    + intros p req E. rewrite length_app. destruct (Hf _ _ E). split; [simpl; lia|auto].
    + intros q p H. rewrite length_app. destruct (Hr _ _ H). simpl; lia.
Qed.

Lemma wf_step a w w1 : wf w -> step a w = Some w1 -> wf w1.
Proof.
  intros Hwf. pose proof Hwf as (Hi & Hf & Hr).
  destruct a as [user|p t|p e|q p|now]; simpl.
  - intros [= <-]. by apply wf_call.
  - destruct (find_write p (inflight w)) as [req|] eqn:E; [|done].
    intros [= <-]. apply wf_settle. split; [done|]. split; simpl; [|done].
    intros p' req' [H _]%find_write_drop_Some. by apply Hf.
  - destruct (find_write p (inflight w)) as [req|] eqn:E; [|done].
    intros [= <-]. apply wf_settle. split; [done|]. split; simpl; [|done].
    intros p' req' [H _]%find_write_drop_Some. by apply Hf.
  - destruct (has_reaction q p (reactions w)); [|done].
    destruct (promises w !! q) as [[]|]; try done;
      intros [= <-]; apply wf_settle; (split; [done|]); (split; simpl; [done|]);
      intros q' p' H%has_reaction_drop; by apply Hr.
  - intros [= <-]. done.
Qed.

Lemma reachable_wf w : reachable w -> wf w.
Proof. induction 1; [apply wf_boot|by eapply wf_step]. Qed.

(** ** Histories *)

Lemma run_app acts1 acts2 w :
  run (acts1 ++ acts2) w =
  match run acts1 w with
  | Some w1 => run acts2 w1
  | None => None
  end.
Proof.
  revert w. induction acts1 as [|a acts1 IH]; intros w; simpl; [done|].
  destruct (step a w); [apply IH|done].
Qed.

Lemma write_answer_app p acts a :
  write_answer p (acts ++ [a]) =
  match write_answer p acts with
  | Some o => Some o
  | None => write_answer p [a]
  end.
Proof.
  induction acts as [|b acts IH]; simpl; [by destruct (write_answer p [a])|].
  destruct b; try apply IH; destruct (Nat.eqb _ p); try done; apply IH.
Qed.

(** ** The invariant of one invocation *)

Lemma wf_fresh_write w p :
  wf w -> (length (promises w) <= p)%nat -> find_write p (inflight w) = None.
Proof.
  intros (_ & Hf & _) Hp.
  destruct (find_write p (inflight w)) as [req|] eqn:E; [|done].
  destruct (Hf _ _ E). lia.
Qed.

Lemma wf_fresh_follower w q p :
  wf w -> (length (promises w) <= p)%nat -> has_reaction q p (reactions w) = false.
Proof.
  intros (_ & _ & Hr) Hp.
  destruct (has_reaction q p (reactions w)) eqn:E; [|done].
  destruct (Hr _ _ E). lia.
Qed.

Lemma awaited_write_sent w req :
  wf w ->
  awaited_write (VPromise (length (promises w))) (sent_world w req) =
  Some (S (length (promises w)), req).
Proof.
  intros Hwf. unfold awaited_write, sent_world. simpl reactions. simpl inflight.
  rewrite adopted_by_app, adopted_by_None, Nat.eqb_refl
    by (intros q; by apply wf_fresh_follower).
  rewrite find_write_app, wf_fresh_write, Nat.eqb_refl by (done || lia). done.
Qed.

Lemma awaited_write_refused w e :
  wf w ->
  awaited_write (VPromise (length (promises w))) (refused_world w e) = None.
Proof.
  intros Hwf. unfold awaited_write, refused_world. simpl reactions.
  rewrite adopted_by_None; [done|]. intros q. by apply wf_fresh_follower.
Qed.

Lemma tracks_init w req :
  wf w ->
  tracks (length (promises w)) (S (length (promises w))) req [] (sent_world w req).
Proof.
  intros Hwf. unfold tracks, sent_world.
  cbn [reactions inflight promises docs write_answer].
  split; [lia|]. split; [|split; [|split]].
  - intros q. rewrite has_reaction_app, wf_fresh_follower by done.
    rewrite orb_false_l, Nat.eqb_refl, andb_true_r. intros H. by apply Nat.eqb_eq in H.
  - rewrite find_write_app, wf_fresh_write by done.
    destruct (Nat.eqb_spec (S (length (promises w))) (length (promises w))); [lia|done].
  - intros q. rewrite has_reaction_app, wf_fresh_follower by (done || lia).
    rewrite orb_false_l.
    destruct (Nat.eqb_spec (length (promises w)) (S (length (promises w)))); [lia|].
    apply andb_false_r.
  - split; [|split; [|split]].
    + rewrite lookup_app_r, Nat.sub_diag by lia. done.
    + rewrite lookup_app_r by lia.
      replace (S (length (promises w)) - length (promises w))%nat with 1%nat by lia. done.
    + rewrite find_write_app, wf_fresh_write, Nat.eqb_refl by (done || lia). done.
    + rewrite has_reaction_app, !Nat.eqb_refl. apply orb_true_r.
Qed.

(** An action that touches neither promise, nor their write and reactions,
    keeps the invariant. *)
Lemma tracks_frame ph pw req acts a w w1 :
  tracks ph pw req acts w ->
  write_answer pw [a] = None ->
  promises w1 !! ph = promises w !! ph ->
  promises w1 !! pw = promises w !! pw ->
  find_write ph (inflight w1) = find_write ph (inflight w) ->
  find_write pw (inflight w1) = find_write pw (inflight w) ->
  (forall q p, p = ph \/ p = pw ->
     has_reaction q p (reactions w1) = has_reaction q p (reactions w)) ->
  ((exists d, docs w !! wr_path req = Some d /\ profile_shaped d) ->
   exists d, docs w1 !! wr_path req = Some d /\ profile_shaped d) ->
  tracks ph pw req (acts ++ [a]) w1.
Proof.
  intros (Hne & F1 & F2 & F3 & Hph) Ha Eph Epw Efh Efw Er Hd.
  unfold tracks. rewrite write_answer_app, Eph, Epw, Efh, Efw.
  split; [done|]. split; [|split; [done|split]].
  - intros q. rewrite Er by auto. apply F1.
  - intros q. rewrite Er by auto. apply F3.
  - destruct (write_answer pw acts) as [o|].
    + destruct Hph as (Ho & Hpw & Hfw & Hh & Hdoc).
      rewrite Er by auto. repeat split; try done.
      * destruct Hh as [Hh|[Hh Hin]]; [by left|right].
        split; [done|]. apply in_or_app. by left.
      * intros v Hv. apply Hd. by eapply Hdoc.
    + rewrite Ha, Er by auto. done.
Qed.

Lemma tracks_bounds ph pw req acts w :
  tracks ph pw req acts w ->
  (ph < length (promises w))%nat /\ (pw < length (promises w))%nat.
Proof.
  intros (_ & _ & _ & _ & H).
  destruct (write_answer pw acts) as [o|].
  - destruct H as (_ & Hpw & _ & [[Hph _]|[Hph _]] & _);
      split; by eapply lookup_lt_Some.
  - destruct H as (Hph & Hpw & _); split; by eapply lookup_lt_Some.
Qed.

Lemma tracks_deliver ph pw req acts user w :
  wf w -> tracks ph pw req acts w ->
  tracks ph pw req (acts ++ [Deliver user]) (createUserProfile user w).2.
Proof.
  intros Hwf Ht. destruct (tracks_bounds _ _ _ _ _ Ht) as [Bph Bpw].
  pose proof Hwf as (Hi & _).
  destruct (createUserProfile_call user w Hi)
    as [(u & _ & _ & ->)|(_ & ->)]; cbn [snd].
  - eapply tracks_frame; try done; unfold sent_world;
      cbn [promises inflight reactions docs].
    + by rewrite lookup_app_l.
    + by rewrite lookup_app_l.
    + rewrite find_write_app.
      destruct (find_write ph (inflight w)); [done|].
      destruct (Nat.eqb_spec (S (length (promises w))) ph); [lia|done].
    + rewrite find_write_app.
      destruct (find_write pw (inflight w)); [done|].
      destruct (Nat.eqb_spec (S (length (promises w))) pw); [lia|done].
    + intros q p Hp. rewrite has_reaction_app.
      destruct (Nat.eqb_spec (length (promises w)) p); [lia|].
      by rewrite andb_false_r, orb_false_r.
  - eapply tracks_frame; try done; unfold refused_world;
      cbn [promises inflight reactions docs with_promises].
    + by rewrite lookup_app_l.
    + by rewrite lookup_app_l.
Qed.

Lemma tracks_answer_other ph pw req acts a p o w w0 r :
  tracks ph pw req acts w ->
  find_write p (inflight w) = Some r ->
  p <> pw ->
  write_answer pw [a] = None ->
  promises w0 = promises w ->
  inflight w0 = drop_write p (inflight w) ->
  reactions w0 = reactions w ->
  ((exists d, docs w !! wr_path req = Some d /\ profile_shaped d) ->
   exists d, docs w0 !! wr_path req = Some d /\ profile_shaped d) ->
  tracks ph pw req (acts ++ [a]) (settle p o w0).
Proof.
  intros Ht Hr Hne Ha Ep Ef Er Hd.
  pose proof Ht as (_ & _ & F2 & _).
  assert (p <> ph) by (intros ->; congruence).
  destruct (settle_fields p o w0) as (_ & _ & E3 & E4 & E5 & _).
  eapply tracks_frame; try done.
  - by rewrite settle_other, Ep.
  - by rewrite settle_other, Ep.
  - by rewrite E4, Ef, find_write_drop_ne.
  - by rewrite E4, Ef, find_write_drop_ne.
  - intros. by rewrite E5, Er.
  - by rewrite E3.
Qed.

Lemma tracks_ack ph pw req acts p t w w1 :
  wf w -> tracks ph pw req acts w ->
  step (StoreAck p t) w = Some w1 ->
  tracks ph pw req (acts ++ [StoreAck p t]) w1.
Proof.
  intros Hwf Ht. cbn [step].
  destruct (find_write p (inflight w)) as [r|] eqn:Er; [|done]. intros [= <-].
  destruct (decide (p = pw)) as [->|Hne].
  - destruct Ht as (Hne & F1 & F2 & F3 & Hph).
    destruct (write_answer pw acts) as [o|] eqn:Ea;
      [destruct Hph as (_ & _ & Hfw & _); congruence|].
    destruct Hph as (Hph & Hpw & Hfw & Hh).
    assert (r = req) as -> by congruence.
    set (w0 := Firestore.commit req t (with_inflight (drop_write pw (inflight w)) w)).
    destruct (settle_fields pw (Fulfilled (VWriteResult t)) w0)
      as (_ & _ & E3 & E4 & E5 & _).
    unfold tracks. rewrite write_answer_app, Ea, E3, E4, E5.
    unfold w0 at 1 2 3 4 5 6.
    cbn [write_answer inflight reactions docs Firestore.commit with_docs with_inflight].
    rewrite Nat.eqb_refl.
    split; [done|]. split; [done|]. split; [by rewrite find_write_drop_ne|].
    split; [done|]. split; [done|]. split; [by apply settle_pending|].
    split; [apply find_write_drop_eq|]. split.
    + left. split; [|done]. by rewrite settle_other.
    + intros _ _. exists (encode_doc t (wr_data req)). split.
      * apply lookup_insert_eq.
      * destruct Hwf as (_ & Hf & _). by apply (Hf _ _ Hfw).
  - eapply tracks_answer_other; try done.
    + cbn [write_answer]. by destruct (Nat.eqb_spec p pw).
    + intros (d & Hd & Hs). cbn [docs Firestore.commit with_docs].
      destruct (decide (wr_path r = wr_path req)) as [->|Hp].
      * exists (encode_doc t (wr_data r)). split; [apply lookup_insert_eq|].
        destruct Hwf as (_ & Hf & _). by apply (Hf _ _ Er).
      * exists d. split; [by rewrite lookup_insert_ne|done].
Qed.

Lemma tracks_nack ph pw req acts p e w w1 :
  tracks ph pw req acts w ->
  step (StoreNack p e) w = Some w1 ->
  tracks ph pw req (acts ++ [StoreNack p e]) w1.
Proof.
  intros Ht. cbn [step].
  destruct (find_write p (inflight w)) as [r|] eqn:Er; [|done]. intros [= <-].
  destruct (decide (p = pw)) as [->|Hne].
  - destruct Ht as (Hne & F1 & F2 & F3 & Hph).
    destruct (write_answer pw acts) as [o|] eqn:Ea;
      [destruct Hph as (_ & _ & Hfw & _); congruence|].
    destruct Hph as (Hph & Hpw & Hfw & Hh).
    set (w0 := with_inflight (drop_write pw (inflight w)) w).
    destruct (settle_fields pw (Rejected e) w0) as (_ & _ & E3 & E4 & E5 & _).
    unfold tracks. rewrite write_answer_app, Ea, E4, E5.
    unfold w0 at 1 2 3 4 5.
    cbn [write_answer inflight reactions with_inflight].
    rewrite Nat.eqb_refl.
    split; [done|]. split; [done|]. split; [by rewrite find_write_drop_ne|].
    split; [done|]. split; [done|]. split; [by apply settle_pending|].
    split; [apply find_write_drop_eq|]. split; [|done].
    left. split; [|done]. by rewrite settle_other.
  - eapply tracks_answer_other; try done.
    cbn [write_answer]. by destruct (Nat.eqb_spec p pw).
Qed.

Lemma tracks_job ph pw req acts q p w w1 :
  tracks ph pw req acts w ->
  step (Job q p) w = Some w1 ->
  tracks ph pw req (acts ++ [Job q p]) w1.
Proof.
  intros Ht. cbn [step].
  destruct (has_reaction q p (reactions w)) eqn:Hqp; [|done].
  destruct (promises w !! q) as [o|] eqn:Hq; [|done].
  assert (o <> Pending ->
          tracks ph pw req (acts ++ [Job q p])
            (settle p o (with_reactions (drop_reaction q p (reactions w)) w)))
    as Hgoal; [|destruct o; intros [= <-]; by apply Hgoal].
  intros Ho. set (w0 := with_reactions (drop_reaction q p (reactions w)) w).
  destruct (settle_fields p o w0) as (_ & _ & E3 & E4 & E5 & _).
  pose proof Ht as (Hne & F1 & F2 & F3 & Hph).
  destruct (decide (p = pw)) as [->|Hpw]; [by rewrite F3 in Hqp|].
  destruct (decide (p = ph)) as [->|Hp].
  - apply F1 in Hqp as ->.
    destruct (write_answer pw acts) as [o'|] eqn:Ea;
      [|destruct Hph as (_ & Hpw' & _); congruence].
    destruct Hph as (Ho' & Hpw' & Hfw & Hh & Hdoc).
    assert (o' = o) as -> by congruence.
    unfold tracks. rewrite write_answer_app, Ea, E3, E4, E5.
    unfold w0 at 1 2 3 4 5.
    cbn [inflight reactions docs with_reactions].
    split; [done|]. split; [|split; [done|split]].
    + intros q' H%has_reaction_drop. by apply F1.
    + intros q'. destruct (has_reaction q' pw _) eqn:E; [|done].
      apply has_reaction_drop in E. by rewrite F3 in E.
    + split; [done|]. split; [by rewrite settle_other|]. split; [done|].
      split; [|done]. right. split; [|apply in_or_app; right; by left].
      destruct Hh as [[Hph _]|[Hph _]].
      * by apply settle_pending.
      * by rewrite (settle_settled ph o w0 o Hph Ho).
  - eapply tracks_frame; try done.
    + by rewrite settle_other.
    + by rewrite settle_other.
    + by rewrite E4.
    + by rewrite E4.
    + intros q' p' Hp'. rewrite E5. unfold w0. cbn [reactions with_reactions].
      apply has_reaction_drop_ne. intros [= _ ->]. by destruct Hp'.
    + by rewrite E3.
Qed.

Lemma tracks_step ph pw req acts a w w1 :
  wf w -> tracks ph pw req acts w -> step a w = Some w1 ->
  tracks ph pw req (acts ++ [a]) w1.
Proof.
  intros Hwf Ht Hs. destruct a as [user|p t|p e|q p|now].
  - injection Hs as <-. by apply tracks_deliver.
  - by eapply tracks_ack.
  - by eapply tracks_nack.
  - by eapply tracks_job.
  - injection Hs as <-. by eapply tracks_frame.
Qed.

Lemma tracks_run ph pw req acts0 acts w w1 :
  wf w -> tracks ph pw req acts0 w -> run acts w = Some w1 ->
  tracks ph pw req (acts0 ++ acts) w1.
Proof.
  revert acts0 w. induction acts as [|a acts IH]; intros acts0 w Hwf Ht; simpl.
  - intros [= <-]. by rewrite app_nil_r.
  - destruct (step a w) as [w'|] eqn:E; [|done]. intros H.
    replace (acts0 ++ a :: acts) with ((acts0 ++ [a]) ++ acts)
      by (by rewrite <- app_assoc).
    eapply IH; [by eapply wf_step| |done]. by eapply tracks_step.
Qed.

(** A settled promise never changes. *)
Lemma settled_step a w w1 p o :
  wf w -> promises w !! p = Some o -> o <> Pending -> step a w = Some w1 ->
  promises w1 !! p = Some o.
Proof.
  intros (Hi & _) Hp Ho.
  assert (forall p' o' w0, promises w0 = promises w ->
            promises (settle p' o' w0) !! p = Some o) as Hsettle.
  { intros p' o' w0 E. destruct (decide (p = p')) as [<-|Hne].
    - rewrite (settle_settled p o' w0 o); [by rewrite E|by rewrite E|done].
    - by rewrite settle_other, E. }
  destruct a as [user|p' t|p' e|q p'|now]; cbn [step].
  - intros [= <-].
    destruct (createUserProfile_call user w Hi)
      as [(u & _ & _ & ->)|(_ & ->)]; cbn [snd];
      unfold sent_world, refused_world; cbn [promises with_promises];
      by apply lookup_app_l_Some.
  - destruct (find_write p' (inflight w)); [|done]. intros [= <-]. by apply Hsettle.
  - destruct (find_write p' (inflight w)); [|done]. intros [= <-]. by apply Hsettle.
  - destruct (has_reaction q p' (reactions w)); [|done].
    destruct (promises w !! q) as [[]|]; try done; intros [= <-]; by apply Hsettle.
  - by intros [= <-].
Qed.

Lemma settled_run acts w w1 p o :
  wf w -> promises w !! p = Some o -> o <> Pending -> run acts w = Some w1 ->
  promises w1 !! p = Some o.
Proof.
  revert w. induction acts as [|a acts IH]; intros w Hwf Hp Ho; simpl.
  - by intros [= <-].
  - destruct (step a w) as [w'|] eqn:E; [|done]. intros H.
    eapply IH; [by eapply wf_step| |done|done]. by eapply settled_step.
Qed.

(** ** One invocation, from the call on *)

(** The two ways a call can end: the write was sent and the call's promise
    waits for it, or the client refused and the promise is rejected. *)
Lemma invocation user w h w1 :
  reachable w -> createUserProfile user w = (Normal h, w1) ->
  h = VPromise (length (promises w))
  /\ ((exists u,
         get user "uid" = VStr u /\ valid_doc_id u = true
         /\ awaited_write h w1 =
            Some (S (length (promises w)),
                  WriteRequest ("users/" ++ u) (profile_data user))
         /\ w1 = sent_world w (WriteRequest ("users/" ++ u) (profile_data user))
         /\ tracks (length (promises w)) (S (length (promises w)))
              (WriteRequest ("users/" ++ u) (profile_data user)) [] w1)
      \/ ((forall u, get user "uid" = VStr u -> valid_doc_id u = false)
          /\ awaited_write h w1 = None
          /\ w1 = refused_world w InvalidDocumentPath
          /\ promises w1 !! length (promises w) =
             Some (Rejected InvalidDocumentPath))).
Proof.
  intros Hwf%reachable_wf Hc. pose proof Hwf as (Hi & _).
  destruct (createUserProfile_call user w Hi)
    as [(u & Hu & Hv & E)|(He & E)];
    rewrite E in Hc; injection Hc as <- <-; (split; [done|]).
  - left. exists u. do 2 (split; [done|]). split; [|split; [done|]].
    + by apply awaited_write_sent.
    + by apply tracks_init.
  - right. split; [done|]. split; [|split; [done|]].
    + by apply awaited_write_refused.
    + unfold refused_world. cbn [promises with_promises].
      rewrite lookup_app_r, Nat.sub_diag by lia. done.
Qed.

Lemma write_answer_split p acts o :
  write_answer p acts = Some o ->
  exists pre a post,
    acts = pre ++ a :: post /\ write_answer p pre = None
    /\ write_answer p [a] = Some o.
Proof.
  induction acts as [|a acts IH]; [done|]. intros H.
  destruct (write_answer p [a]) as [o'|] eqn:Ea.
  - exists [], a, acts. split; [done|]. split; [done|].
    rewrite <- H. clear -Ea. cbn [write_answer] in *.
    destruct a; try done; destruct (Nat.eqb _ p); done.
  - assert (write_answer p acts = Some o) as H'.
    { rewrite <- H. clear -Ea. cbn [write_answer] in *.
      destruct a; try done; destruct (Nat.eqb _ p); done. }
    destruct (IH H') as (pre & b & post & -> & Hpre & Hb).
    exists (a :: pre), b, post. split; [done|]. split; [|done].
    clear -Ea Hpre. cbn [write_answer] in *.
    destruct a; try done; destruct (Nat.eqb _ p); done.
Qed.

Lemma run_prefix acts1 acts2 w w2 :
  run (acts1 ++ acts2) w = Some w2 ->
  exists w1, run acts1 w = Some w1 /\ run acts2 w1 = Some w2.
Proof.
  rewrite run_app. destruct (run acts1 w) as [w1|]; [|done]. eauto.
Qed.

Lemma write_answer_single p a o :
  write_answer p [a] = Some o ->
  (exists t, a = StoreAck p t /\ o = Fulfilled (VWriteResult t))
  \/ (exists e, a = StoreNack p e /\ o = Rejected e).
Proof.
  destruct a as [user|q t|q e|q q'|now]; cbn [write_answer]; try done;
    destruct (Nat.eqb_spec q p) as [->|_]; try done; intros [= <-]; eauto.
Qed.

Lemma wf_after_call user w h w1 :
  reachable w -> createUserProfile user w = (Normal h, w1) -> wf w1.
Proof.
  intros Hr Hc. apply reachable_wf.
  eapply (reachable_step (Deliver user)); [done|]. cbn [step]. by rewrite Hc.
Qed.

(** The store's commit of an invocation's write, whenever it comes, replaces
    the document at [users/u] by the encoded profile. *)
Lemma commit_writes_profile user u w h w1 pw req acts w2 t w3 :
  reachable w ->
  get user "uid" = VStr u ->
  createUserProfile user w = (Normal h, w1) ->
  awaited_write h w1 = Some (pw, req) ->
  run acts w1 = Some w2 ->
  step (StoreAck pw t) w2 = Some w3 ->
  req = WriteRequest ("users/" ++ u) (profile_data user)
  /\ docs w3 = <[("users/" ++ u)%string := encode_doc t (profile_data user)]> (docs w2).
Proof.
  intros Hr Hu Hc Haw Hrun Hs. pose proof (wf_after_call _ _ _ _ Hr Hc) as Hwf1.
  destruct (invocation _ _ _ _ Hr Hc) as [-> [Hsent|Hrefused]].
  - destruct Hsent as (u' & Hu' & _ & Haw' & _ & Ht).
    assert (u' = u) as -> by congruence.
    rewrite Haw' in Haw. injection Haw as <- <-.
    pose proof (tracks_run _ _ _ _ _ _ _ Hwf1 Ht Hrun) as (_ & _ & _ & _ & Hph).
    cbn [app] in Hph. cbn [step] in Hs.
    destruct (write_answer _ acts) as [o|].
    + destruct Hph as (_ & _ & Hfw & _). by rewrite Hfw in Hs.
    + destruct Hph as (_ & _ & Hfw & _). rewrite Hfw in Hs. injection Hs as <-.
      split; [done|].
      by destruct (settle_fields (S (length (promises w))) (Fulfilled (VWriteResult t))
                    (Firestore.commit
                       (WriteRequest ("users/" ++ u) (profile_data user)) t
                       (with_inflight
                          (drop_write (S (length (promises w))) (inflight w2)) w2)))
          as (_ & _ & -> & _).
  - destruct Hrefused as (_ & Haw' & _). congruence.
Qed.

(** When the store accepts the id, the call sends the write and the store
    can commit it. *)
Lemma commit_enabled user u w t :
  reachable w ->
  get user "uid" = VStr u ->
  valid_doc_id u = true ->
  exists h w1 pw req w3,
    createUserProfile user w = (Normal h, w1)
    /\ awaited_write h w1 = Some (pw, req)
    /\ step (StoreAck pw t) w1 = Some w3.
Proof.
  intros Hr Hu Hv. pose proof (reachable_wf _ Hr) as Hwf.
  pose proof Hwf as (Hi & _).
  destruct (createUserProfile_call user w Hi)
    as [(u' & Hu' & _ & E)|(He & _)].
  - destruct (invocation _ _ _ _ Hr E) as [_ [Hsent|Hrefused]].
    + destruct Hsent as (u'' & _ & _ & Haw & _ & Ht).
      destruct Ht as (_ & _ & _ & _ & _ & _ & Hfw & _).
      eexists _, _, _, _, _. split; [done|]. split; [done|].
      cbn [step]. by rewrite Hfw.
    + destruct Hrefused as (_ & Haw & Hw & _).
      rewrite awaited_write_sent in Haw; done.
  - specialize (He _ Hu). congruence.
Qed.

Lemma get_present (o : object) k v : o !! k = Some v -> get o k = v.
Proof. intros H. unfold get. by rewrite H. Qed.

Lemma get_absent (o : object) k : o !! k = None -> get o k = VUndefined.
Proof. intros H. unfold get. by rewrite H. Qed.

Lemma encode_prim_time v t1 t2 : encode t1 (VPrim v) = encode t2 (VPrim v).
Proof. by destruct v. Qed.

Lemma profile_data_agree user1 user2 :
  get user1 "email" = get user2 "email" ->
  get user1 "displayName" = get user2 "displayName" ->
  profile_data user1 = profile_data user2.
Proof. intros H1 H2. unfold profile_data. by rewrite H1, H2. Qed.

Lemma step_job_docs q p w w1 : step (Job q p) w = Some w1 -> docs w1 = docs w.
Proof.
  cbn [step]. destruct (has_reaction q p (reactions w)); [|done].
  destruct (promises w !! q) as [o|]; [|done].
  assert (docs (settle p o (with_reactions (drop_reaction q p (reactions w)) w))
          = docs w) as E.
  { by destruct (settle_fields p o
                   (with_reactions (drop_reaction q p (reactions w)) w))
      as (_ & _ & -> & _). }
  destruct o; try done; intros [= <-]; exact E.
Qed.

(** An event handled alone: the world it leaves. *)
Lemma succeed_alone_spec user u t w w2 :
  reachable w ->
  get user "uid" = VStr u ->
  succeed_alone user t w = Some w2 ->
  reachable w2
  /\ docs w2 = <[("users/" ++ u)%string := encode_doc t (profile_data user)]> (docs w)
  /\ promises w2 !! length (promises w) = Some (Fulfilled (VWriteResult t)).
Proof.
  intros Hr Hu. unfold succeed_alone.
  destruct (createUserProfile user w) as [[h|e] w1] eqn:Hc; [|done].
  destruct h as [| | |ph]; try done.
  destruct (awaited_write (VPromise ph) w1) as [[pw req]|] eqn:Haw; [|done].
  cbn [run].
  destruct (step (StoreAck pw t) w1) as [w'|] eqn:Hs1; [|done].
  destruct (step (Job pw ph) w') as [w''|] eqn:Hs2; [|done]. intros [= ->].
  pose proof (wf_after_call _ _ _ _ Hr Hc) as Hwf1.
  assert (reachable w1) as Hr1.
  { eapply (reachable_step (Deliver user)); [done|]. cbn [step]. by rewrite Hc. }
  destruct (commit_writes_profile _ _ _ _ _ _ _ [] _ _ _ Hr Hu Hc Haw eq_refl Hs1)
    as [-> Hd].
  destruct (invocation _ _ _ _ Hr Hc) as [[= ->] [Hsent|Hrefused]];
    [|destruct Hrefused as (_ & ? & _); congruence].
  destruct Hsent as (u' & _ & _ & Haw' & Hw1 & Ht).
  rewrite Haw' in Haw. injection Haw as <- _.
  split; [|split].
  - eapply reachable_step; [|exact Hs2]. by eapply reachable_step.
  - rewrite (step_job_docs _ _ _ _ Hs2), Hd, Hw1. done.
  - assert (run [StoreAck (S (length (promises w))) t] w1 = Some w') as Hrun
      by (cbn [run]; by rewrite Hs1).
    pose proof (tracks_run _ _ _ _ _ _ _ Hwf1 Ht Hrun) as (_ & _ & _ & _ & Hph).
    cbn [app write_answer] in Hph. rewrite Nat.eqb_refl in Hph.
    destruct Hph as (_ & Hpw & _ & [[Hph Hh]|[_ [[=]|[]]]] & _).
    cbn [step] in Hs2. rewrite Hh, Hpw in Hs2. injection Hs2 as <-.
    by apply settle_pending.
Qed.

(** Whenever the store accepts the id, an event can be handled alone to the
    end. *)
Lemma succeed_alone_total user u t w :
  reachable w ->
  get user "uid" = VStr u ->
  valid_doc_id u = true ->
  exists w2, succeed_alone user t w = Some w2.
Proof.
  intros Hr Hu Hv.
  destruct (commit_enabled user u w t Hr Hu Hv)
    as (h & w1 & pw & req & w3 & Hc & Haw & Hs).
  pose proof (wf_after_call _ _ _ _ Hr Hc) as Hwf1.
  destruct (invocation _ _ _ _ Hr Hc) as [-> [Hsent|Hrefused]];
    [|destruct Hrefused as (_ & ? & _); congruence].
  destruct Hsent as (u' & _ & _ & Haw' & _ & Ht).
  pose proof Haw as Haw0. rewrite Haw' in Haw0. injection Haw0 as <- <-.
  unfold succeed_alone. rewrite Hc, Haw. cbn [run]. rewrite Hs.
  assert (run [StoreAck (S (length (promises w))) t] w1 = Some w3) as Hrun
    by (cbn [run]; by rewrite Hs).
  pose proof (tracks_run _ _ _ _ _ _ _ Hwf1 Ht Hrun) as (_ & _ & _ & _ & Hph).
  cbn [app write_answer] in Hph. rewrite Nat.eqb_refl in Hph.
  destruct Hph as (_ & Hpw & _ & [[Hph Hh]|[_ [[=]|[]]]] & _).
  cbn [step]. rewrite Hh, Hpw. eauto.
Qed.

(** The invocation's promise carries the store's verdict and nothing else.
    When the client refuses the document id, the promise is rejected with
    the client's error.  When the write was sent, the promise is pending
    until the store answers, and then it holds the store's answer as soon as
    the job that passes the answer on has run. *)
Lemma promise_carries_answer user w h w1 acts w2 :
  reachable w ->
  createUserProfile user w = (Normal h, w1) ->
  run acts w1 = Some w2 ->
  match awaited_write h w1 with
  | None =>
      promise_of h w2 = Some (Rejected InvalidDocumentPath)
      /\ forall u, get user "uid" = VStr u -> valid_doc_id u = false
  | Some (pw, _) =>
      match write_answer pw acts with
      | None => promise_of h w2 = Some Pending
      | Some o =>
          o <> Pending
          /\ (promise_of h w2 = Some o
              \/ (promise_of h w2 = Some Pending
                  /\ exists ph w3,
                      h = VPromise ph /\ step (Job pw ph) w2 = Some w3
                      /\ promise_of h w3 = Some o))
      end
  end.
Proof.
  intros Hr Hc Hrun. pose proof (wf_after_call _ _ _ _ Hr Hc) as Hwf1.
  destruct (invocation _ _ _ _ Hr Hc) as [-> [Hsent|Hrefused]].
  - destruct Hsent as (u & _ & _ & -> & _ & Ht).
    pose proof (tracks_run _ _ _ _ _ _ _ Hwf1 Ht Hrun) as (Hne & _ & _ & _ & Hph).
    cbn [promise_of]. cbn [app] in Hph.
    destruct (write_answer _ acts) as [o|]; [|by destruct Hph].
    destruct Hph as (Ho & Hpw & _ & [[Hph Hh]|[Hph _]] & _); (split; [done|]);
      [right|by left].
    split; [done|]. eexists _, _. split; [done|]. cbn [step].
    rewrite Hh, Hpw. split.
    + by destruct o.
    + cbn [promise_of]. by apply settle_pending.
  - destruct Hrefused as (He & -> & -> & Hp).
    cbn [promise_of]. split; [by eapply settled_run|done].
Qed.

(** Once a write was sent, the invocation's promise settles only with the
    store's answer, which comes at a point of the history where the promise
    was pending and the write in flight. *)
Lemma settles_after_answer user w h w1 pw req acts w2 o :
  reachable w ->
  createUserProfile user w = (Normal h, w1) ->
  awaited_write h w1 = Some (pw, req) ->
  run acts w1 = Some w2 ->
  promise_of h w2 = Some o ->
  o <> Pending ->
  exists a pre post wp,
    acts = pre ++ a :: post
    /\ write_answer pw [a] = Some o
    /\ run pre w1 = Some wp
    /\ promise_of h wp = Some Pending
    /\ find_write pw (inflight wp) = Some req
    /\ find_write pw (inflight w2) = None.
Proof.
  intros Hr Hc Haw Hrun Ho Hne. pose proof (wf_after_call _ _ _ _ Hr Hc) as Hwf1.
  destruct (invocation _ _ _ _ Hr Hc) as [-> [Hsent|Hrefused]];
    [|destruct Hrefused as (_ & ? & _); congruence].
  destruct Hsent as (u & _ & _ & Haw' & _ & Ht).
  rewrite Haw' in Haw. injection Haw as <- <-.
  pose proof (tracks_run _ _ _ _ _ _ _ Hwf1 Ht Hrun) as (_ & _ & _ & _ & Hph).
  cbn [promise_of] in Ho |- *. cbn [app] in Hph.
  destruct (write_answer _ acts) as [o'|] eqn:Ea;
    [|destruct Hph as (Hph & _); congruence].
  destruct Hph as (_ & _ & Hfw & [[Hph _]|[Hph _]] & _); [congruence|].
  assert (o' = o) as -> by congruence.
  destruct (write_answer_split _ _ _ Ea) as (pre & a & post & -> & Hpre & Ha).
  destruct (run_prefix _ _ _ _ Hrun) as (wp & Hrp & _).
  pose proof (tracks_run _ _ _ _ _ _ _ Hwf1 Ht Hrp) as (_ & _ & _ & _ & Hpp).
  cbn [app] in Hpp. rewrite Hpre in Hpp. destruct Hpp as (Hp1 & _ & Hp3 & _).
  by exists a, pre, post, wp.
Qed.

(** ** The claims *)

(** C1.  After an invocation for identifier [u] has completed successfully,
    whatever else happened in between, the store holds a document at
    [users/u] with exactly the fields email, displayName, coin and createdAt,
    where coin is 0 and createdAt is a timestamp. *)
Theorem profile_exists_after_success user u w h w1 acts w2 v :
  reachable w ->
  get user "uid" = VStr u ->
  createUserProfile user w = (Normal h, w1) ->
  run acts w1 = Some w2 ->
  promise_of h w2 = Some (Fulfilled v) ->
  exists d, docs w2 !! ("users/" ++ u)%string = Some d /\ profile_shaped d.
Proof.
  intros Hr Hu Hc Hrun Hv.
  destruct (invocation _ _ _ _ Hr Hc) as [-> [Hsent|Hrefused]].
  - destruct Hsent as (u' & Hu' & _ & _ & _ & Ht).
    assert (u' = u) as -> by congruence.
    pose proof (wf_after_call _ _ _ _ Hr Hc) as Hwf1.
    pose proof (tracks_run _ _ _ _ _ _ _ Hwf1 Ht Hrun) as (_ & _ & _ & _ & Hph).
    cbn [promise_of] in Hv.
    destruct (write_answer _ _) as [o|].
    + destruct Hph as (_ & _ & _ & [[Hph _]|[Hph _]] & Hdoc); [congruence|].
      apply (Hdoc v). congruence.
    + destruct Hph as (Hph & _). congruence.
  - destruct Hrefused as (_ & _ & -> & Hp).
    exfalso. cbn [promise_of] in Hv.
    pose proof (wf_after_call _ _ _ _ Hr Hc) as Hwf1.
    rewrite (settled_run _ _ _ _ _ Hwf1 Hp ltac:(done) Hrun) in Hv. done.
Qed.

(** C2, as the code has it.  When the store commits the write of an event
    whose email is a non-empty string and whose display name is absent, that
    is missing, undefined or null, the document holds that email and a null
    displayName; for an event with both absent it holds null in both
    fields, stored and not left out, and coin 0. *)
Theorem absent_fields_stored_as_null user u w h w1 pw req acts w2 t w3 :
  reachable w ->
  get user "uid" = VStr u ->
  createUserProfile user w = (Normal h, w1) ->
  awaited_write h w1 = Some (pw, req) ->
  run acts w1 = Some w2 ->
  step (StoreAck pw t) w2 = Some w3 ->
  exists d,
    docs w3 !! ("users/" ++ u)%string = Some d
    /\ (forall e, get user "email" = VStr e -> e <> "" ->
         get user "displayName" = VUndefined \/ get user "displayName" = VNull ->
         d !! "email" = Some (SString e) /\ d !! "displayName" = Some SNull)
    /\ (get user "email" = VUndefined \/ get user "email" = VNull ->
        get user "displayName" = VUndefined \/ get user "displayName" = VNull ->
        d !! "email" = Some SNull /\ d !! "displayName" = Some SNull
        /\ d !! "coin" = Some (SInt 0))
    /\ (forall k, user !! k = None -> get user k = VUndefined).
Proof.
  intros Hr Hu Hc Haw Hrun Hs.
  destruct (commit_writes_profile _ _ _ _ _ _ _ _ _ _ _ Hr Hu Hc Haw Hrun Hs)
    as [_ ->].
  eexists. split; [apply lookup_insert_eq|]. rewrite encode_doc_profile.
  split; [|split].
  - intros e He Hne Hn. rewrite He. cbn [truthy encode].
    destruct (String.eqb_spec e ""); [done|].
    destruct Hn as [-> | ->]; split; by simplify_map_eq.
  - intros He Hn.
    destruct He as [-> | ->]; destruct Hn as [-> | ->]; cbn [truthy];
      repeat split; by simplify_map_eq.
  - intros k Hk. by apply get_absent.
Qed.

(** C3.  A failed write fails the invocation, and nothing else does.  When
    the client refuses the document id, the invocation's promise is rejected
    with the client's error.  When the store fails the write with an error,
    the promise is rejected with that error, at the latest after the job
    that passes the answer on.  The promise is rejected only in these two
    cases, and it is fulfilled only when the store committed the write. *)
Theorem failure_propagates user w h w1 acts w2 :
  reachable w ->
  createUserProfile user w = (Normal h, w1) ->
  run acts w1 = Some w2 ->
  (awaited_write h w1 = None ->
     promise_of h w2 = Some (Rejected InvalidDocumentPath)
     /\ forall u, get user "uid" = VStr u -> valid_doc_id u = false)
  /\ (forall pw req e,
        awaited_write h w1 = Some (pw, req) ->
        write_answer pw acts = Some (Rejected e) ->
        promise_of h w2 = Some (Rejected e)
        \/ (promise_of h w2 = Some Pending
            /\ exists ph w3,
                h = VPromise ph /\ step (Job pw ph) w2 = Some w3
                /\ promise_of h w3 = Some (Rejected e)))
  /\ (forall e,
        promise_of h w2 = Some (Rejected e) ->
        awaited_write h w1 = None
        \/ exists pw req,
            awaited_write h w1 = Some (pw, req)
            /\ write_answer pw acts = Some (Rejected e))
  /\ (forall v,
        promise_of h w2 = Some (Fulfilled v) ->
        exists pw req,
          awaited_write h w1 = Some (pw, req)
          /\ write_answer pw acts = Some (Fulfilled v)).
Proof.
  intros Hr Hc Hrun.
  pose proof (promise_carries_answer _ _ _ _ _ _ Hr Hc Hrun) as H.
  destruct (awaited_write h w1) as [[pw req]|].
  - split; [done|]. split; [|split].
    + intros pw' req' e [= <- <-] Ha. rewrite Ha in H. by destruct H.
    + intros e He. right. exists pw, req. split; [done|].
      destruct (write_answer pw acts) as [o|]; [|congruence].
      destruct H as [_ [H|[H _]]]; congruence.
    + intros v Hv. exists pw, req. split; [done|].
      destruct (write_answer pw acts) as [o|]; [|congruence].
      destruct H as [_ [H|[H _]]]; congruence.
  - destruct H as [H1 H2]. split; [done|]. split; [done|]. split.
    + intros e _. by left.
    + intros v Hv. congruence.
Qed.

(** C4.  Handling the same identifier, email and display name twice leaves
    one document at the key: the second write adds no document, both
    documents have coin 0, and the second is the first with createdAt set to
    the second commit time. *)
Theorem redelivery_is_idempotent_up_to_timestamp user user' u t1 t2 w w2 w4 :
  reachable w ->
  get user "uid" = VStr u ->
  get user' "uid" = get user "uid" ->
  get user' "email" = get user "email" ->
  get user' "displayName" = get user "displayName" ->
  succeed_alone user t1 w = Some w2 ->
  succeed_alone user' t2 w2 = Some w4 ->
  exists d1 d2,
    docs w2 !! ("users/" ++ u)%string = Some d1
    /\ docs w4 !! ("users/" ++ u)%string = Some d2
    /\ d1 !! "coin" = Some (SInt 0)
    /\ d2 !! "coin" = Some (SInt 0)
    /\ d1 !! "createdAt" = Some (STimestamp t1)
    /\ d2 = <["createdAt" := STimestamp t2]> d1
    /\ docs w4 = <[("users/" ++ u)%string := d2]> (docs w2)
    /\ dom (docs w4) = dom (docs w2).
Proof.
  intros Hr Hu Hu' He Hn H1 H2.
  destruct (succeed_alone_spec _ _ _ _ _ Hr Hu H1) as (Hr2 & Hd2 & _).
  rewrite Hu in Hu'.
  destruct (succeed_alone_spec _ _ _ _ _ Hr2 Hu' H2) as (_ & Hd4 & _).
  rewrite (profile_data_agree _ _ He Hn) in Hd4.
  exists (encode_doc t1 (profile_data user)), (encode_doc t2 (profile_data user)).
  rewrite Hd4, Hd2, !encode_doc_profile.
  split; [apply lookup_insert_eq|]. split; [apply lookup_insert_eq|].
  split; [by simplify_map_eq|]. split; [by simplify_map_eq|].
  split; [by simplify_map_eq|]. split.
  - rewrite insert_insert_eq.
    by rewrite (encode_prim_time _ t2 t1), (encode_prim_time (get user "email") t2 t1).
  - split; [done|]. apply dom_insert_lookup_L. rewrite lookup_insert_eq. eauto.
Qed.

(** C5.  The store's commit of an invocation's write replaces whatever
    document was at the key by the new default record, whose coin is 0; the
    record does not depend on the document that was there. *)
Theorem set_overwrites_prior_document user u w h w1 pw req acts w2 t w3 :
  reachable w ->
  get user "uid" = VStr u ->
  createUserProfile user w = (Normal h, w1) ->
  awaited_write h w1 = Some (pw, req) ->
  run acts w1 = Some w2 ->
  step (StoreAck pw t) w2 = Some w3 ->
  exists e n,
    encode t (VPrim (js_or (get user "email") VNull)) = Some e
    /\ encode t (VPrim (js_or (get user "displayName") VNull)) = Some n
    /\ docs w3 =
       <[("users/" ++ u)%string :=
           <["createdAt" := STimestamp t]>
             (<["coin" := SInt 0]> (<["displayName" := n]> (<["email" := e]> ∅)))]>
         (docs w2)
    /\ (docs w3 !! ("users/" ++ u)%string) ≫= (.!! "coin") = Some (SInt 0).
Proof.
  intros Hr Hu Hc Haw Hrun Hs.
  destruct (commit_writes_profile _ _ _ _ _ _ _ _ _ _ _ Hr Hu Hc Haw Hrun Hs)
    as [_ ->].
  rewrite encode_doc_profile. eexists _, _.
  split; [apply encode_or_null|]. split; [apply encode_or_null|].
  split; [done|]. rewrite lookup_insert_eq. cbn [mbind option_bind].
  by simplify_map_eq.
Qed.

(** C6.  In every write request the function sends, the createdAt entry is
    the server-timestamp sentinel and nothing else; the call gives the same
    result whatever the process's own clock shows; and the createdAt the
    store keeps is the time of its own commit. *)
Theorem createdAt_is_server_sentinel user w h w1 pw req :
  reachable w ->
  createUserProfile user w = (Normal h, w1) ->
  awaited_write h w1 = Some (pw, req) ->
  In ("createdAt", VServerTimestamp) (wr_data req)
  /\ (forall v, In ("createdAt", v) (wr_data req) -> v = VServerTimestamp)
  /\ (forall now,
        createUserProfile user (with_clock now w) = (Normal h, with_clock now w1))
  /\ (forall acts w2 t w3,
        run acts w1 = Some w2 -> step (StoreAck pw t) w2 = Some w3 ->
        (docs w3 !! wr_path req) ≫= (.!! "createdAt") = Some (STimestamp t)).
Proof.
  intros Hr Hc Haw.
  destruct (invocation _ _ _ _ Hr Hc) as [-> [Hsent|Hrefused]];
    [|destruct Hrefused as (_ & ? & _); congruence].
  destruct Hsent as (u & Hu & Hv & Haw' & Hw1 & _).
  pose proof Haw as Haw0. rewrite Haw' in Haw0. injection Haw0 as <- <-.
  cbn [wr_data wr_path]. split; [|split; [|split]].
  - unfold profile_data. cbn [In]. auto.
  - unfold profile_data. cbn [In]. intros v [H|[H|[H|[H|[]]]]]; by injection H.
  - intros now. pose proof (reachable_wf _ Hr) as (Hi & _).
    destruct (createUserProfile_call user (with_clock now w) Hi)
      as [(u' & Hu' & _ & ->)|(He & _)].
    + assert (u' = u) as -> by congruence. by rewrite Hw1.
    + specialize (He _ Hu). congruence.
  - intros acts w2 t w3 Hrun Hs.
    destruct (commit_writes_profile _ _ _ _ _ _ _ _ _ _ _ Hr Hu Hc Haw Hrun Hs)
      as [_ ->].
    rewrite lookup_insert_eq, encode_doc_profile. cbn [mbind option_bind].
    apply lookup_insert_eq.
Qed.

(** C7.  The invocation's promise settles only after the store has
    answered the write.  If the promise is fulfilled after a history, the
    history contains the store's commit of the awaited write, and at that
    point the promise was still pending and the write still in flight; and
    whenever a write was sent, any outcome of the promise is the store's
    answer, given at a point of the history where the promise was pending. *)
Theorem completion_only_after_ack user w h w1 acts w2 :
  reachable w ->
  createUserProfile user w = (Normal h, w1) ->
  run acts w1 = Some w2 ->
  (forall v,
     promise_of h w2 = Some (Fulfilled v) ->
     exists pw req t pre post wp,
       awaited_write h w1 = Some (pw, req)
       /\ acts = pre ++ StoreAck pw t :: post
       /\ run pre w1 = Some wp
       /\ promise_of h wp = Some Pending
       /\ find_write pw (inflight wp) = Some req
       /\ find_write pw (inflight w2) = None
       /\ v = VWriteResult t)
  /\ (forall pw req o,
        awaited_write h w1 = Some (pw, req) ->
        promise_of h w2 = Some o -> o <> Pending ->
        exists a pre post wp,
          acts = pre ++ a :: post
          /\ write_answer pw [a] = Some o
          /\ run pre w1 = Some wp
          /\ promise_of h wp = Some Pending
          /\ find_write pw (inflight wp) = Some req
          /\ find_write pw (inflight w2) = None).
Proof.
  intros Hr Hc Hrun. split.
  - intros v Hv.
    destruct (awaited_write h w1) as [[pw req]|] eqn:Haw.
    + destruct (settles_after_answer _ _ _ _ _ _ _ _ _ Hr Hc Haw Hrun Hv)
        as (a & pre & post & wp & -> & Ha & H1 & H2 & H3 & H4); [done|].
      destruct (write_answer_single _ _ _ Ha) as [(t & -> & [= ->])|(e & _ & [=])].
      exists pw, req, t, pre, post, wp. repeat (split; [done|]). done.
    + pose proof (promise_carries_answer _ _ _ _ _ _ Hr Hc Hrun) as H.
      rewrite Haw in H. destruct H as [H _]. congruence.
  - intros pw req o Haw Ho Hne. by eapply settles_after_answer.
Qed.

(** C8.  A falsy email or display name is stored as null: when the store
    commits the write, each of the two fields whose value in the event is
    falsy holds null, in particular when it is absent, null or the empty
    string. *)
Theorem falsy_fields_stored_as_null user u w h w1 pw req acts w2 t w3 :
  reachable w ->
  get user "uid" = VStr u ->
  createUserProfile user w = (Normal h, w1) ->
  awaited_write h w1 = Some (pw, req) ->
  run acts w1 = Some w2 ->
  step (StoreAck pw t) w2 = Some w3 ->
  exists d,
    docs w3 !! ("users/" ++ u)%string = Some d
    /\ (forall k, k = "email" \/ k = "displayName" ->
         truthy (get user k) = false -> d !! k = Some SNull)
    /\ (forall k, k = "email" \/ k = "displayName" ->
         user !! k = None \/ user !! k = Some VNull \/ user !! k = Some (VStr "") ->
         d !! k = Some SNull).
Proof.
  intros Hr Hu Hc Haw Hrun Hs.
  destruct (commit_writes_profile _ _ _ _ _ _ _ _ _ _ _ Hr Hu Hc Haw Hrun Hs)
    as [_ ->].
  eexists. split; [apply lookup_insert_eq|].
  assert (forall k, k = "email" \/ k = "displayName" ->
            truthy (get user k) = false ->
            encode_doc t (profile_data user) !! k = Some SNull) as Hfalsy.
  { intros k [->| ->] Hk; rewrite encode_doc_profile, Hk; by simplify_map_eq. }
  split; [done|]. intros k Hk Hv. apply Hfalsy; [done|].
  destruct Hv as [Hv|[Hv|Hv]].
  - by rewrite (get_absent _ _ Hv).
  - by rewrite (get_present _ _ _ Hv).
  - by rewrite (get_present _ _ _ Hv).
Qed.

(** C9, as the code has it.  The function checks nothing itself and hands
    the event's uid to the client's [doc].  Whatever rule the client has for
    document ids: when it accepts the uid, the call sends one write under
    [users/uid] and leaves its promise pending; when it refuses the uid, an
    empty or malformed one or one that is not a string, [doc] throws before
    [set] is called, no write is sent, and the call is rejected at once with
    the client's error.  Every event is in one of the two cases, and a call
    is rejected at once only in the second. *)
Theorem uid_checked_only_by_client user w h w1 :
  reachable w ->
  createUserProfile user w = (Normal h, w1) ->
  (forall u, get user "uid" = VStr u -> valid_doc_id u = true ->
     exists pw,
       awaited_write h w1 =
         Some (pw, WriteRequest ("users/" ++ u) (profile_data user))
       /\ inflight w1 =
          inflight w ++ [(pw, WriteRequest ("users/" ++ u) (profile_data user))]
       /\ promise_of h w1 = Some Pending)
  /\ ((forall u, get user "uid" = VStr u -> valid_doc_id u = false) ->
      awaited_write h w1 = None
      /\ inflight w1 = inflight w
      /\ docs w1 = docs w
      /\ promise_of h w1 = Some (Rejected InvalidDocumentPath))
  /\ ((exists u, get user "uid" = VStr u /\ valid_doc_id u = true)
      \/ (forall u, get user "uid" = VStr u -> valid_doc_id u = false))
  /\ (promise_of h w1 = Some (Rejected InvalidDocumentPath) <->
      forall u, get user "uid" = VStr u -> valid_doc_id u = false)
  /\ (forall e, promise_of h w1 = Some (Rejected e) -> e = InvalidDocumentPath).
Proof.
  intros Hr Hc.
  destruct (invocation _ _ _ _ Hr Hc) as [-> [Hsent|Hrefused]]; cbn [promise_of].
  - destruct Hsent as (u & Hu & Hv & Haw & -> & Ht).
    destruct Ht as (_ & _ & _ & _ & Hph & _).
    split; [|split; [|split; [|split]]].
    + intros u' Hu' _. assert (u' = u) as -> by congruence.
      exists (S (length (promises w))). by repeat split.
    + intros H. specialize (H _ Hu). congruence.
    + left. eauto.
    + split; [congruence|]. intros H. specialize (H _ Hu). congruence.
    + congruence.
  - destruct Hrefused as (He & Haw & -> & Hp).
    split; [|split; [|split; [|split]]].
    + intros u Hu Hv. specialize (He _ Hu). congruence.
    + done.
    + by right.
    + done.
    + congruence.
Qed.

(** C10.  The call reads only uid, email and displayName: two events that
    agree on these three properties make the same call, with the same write
    request and the same world after it, whatever else they carry. *)
Theorem write_depends_on_three_fields user1 user2 w :
  get user1 "uid" = get user2 "uid" ->
  get user1 "email" = get user2 "email" ->
  get user1 "displayName" = get user2 "displayName" ->
  createUserProfile user1 w = createUserProfile user2 w.
Proof.
  intros Hu He Hn.
  unfold createUserProfile, onCreate, createUserProfile_body.
  by rewrite Hu, (profile_data_agree _ _ He Hn).
Qed.

(** ** Further properties of the function *)

Lemma settle_fresh o w :
  settle (length (promises w)) o (with_promises (promises w ++ [Pending]) w)
  = with_promises (promises w ++ [o]) w.
Proof.
  unfold settle. cbn [promises with_promises].
  rewrite lookup_app_r, Nat.sub_diag by lia. cbn [lookup list_lookup].
  rewrite insert_app_r_alt, Nat.sub_diag by lia. done.
Qed.

Lemma createUserProfile_unloaded user w :
  app_initialized w = false ->
  createUserProfile user w =
  (Normal (VPromise (length (promises w))), refused_world w AppNotInitialized).
Proof.
  intros Hi. unfold createUserProfile, onCreate, async, new_promise.
  unfold createUserProfile_body, js_bind, admin.firestore.
  cbn [app_initialized with_promises]. rewrite Hi. by rewrite settle_fresh.
Qed.

Lemma users_path_inj u1 u2 :
  ("users/" ++ u1 = "users/" ++ u2)%string -> u1 = u2.
Proof. by intros [=]. Qed.


Lemma refused_world_promise w e :
  promises (refused_world w e) !! length (promises w) = Some (Rejected e).
Proof.
  unfold refused_world. cbn [promises with_promises].
  rewrite lookup_app_r, Nat.sub_diag by lia. done.
Qed.

Lemma sent_world_promise w req :
  promises (sent_world w req) !! length (promises w) = Some Pending.
Proof.
  unfold sent_world. cbn [promises].
  rewrite lookup_app_r, Nat.sub_diag by lia. done.
Qed.

(** X1.  The call is rejected for want of the default app exactly in a
    process where [admin.initializeApp()] has not run, and then it sends
    nothing and leaves the store as it is; in a process that has loaded the
    module this never happens. *)
Theorem initializeApp_makes_client_available user w h w1 :
  createUserProfile user w = (Normal h, w1) ->
  (promise_of h w1 = Some (Rejected AppNotInitialized) <-> app_initialized w = false)
  /\ (app_initialized w = false ->
      docs w1 = docs w /\ inflight w1 = inflight w /\ reactions w1 = reactions w)
  /\ (reachable w -> promise_of h w1 <> Some (Rejected AppNotInitialized)).
Proof.
  intros Hc. destruct (app_initialized w) eqn:Hi.
  - assert (promise_of h w1 <> Some (Rejected AppNotInitialized)) as Hne.
    { destruct (createUserProfile_call user w Hi) as [(u & _ & _ & E)|(_ & E)];
        rewrite E in Hc; injection Hc as <- <-; cbn [promise_of].
      - by rewrite sent_world_promise.
      - by rewrite refused_world_promise. }
    split; [split; [done|discriminate]|]. split; [discriminate|done].
  - rewrite (createUserProfile_unloaded user w Hi) in Hc. injection Hc as <- <-.
    cbn [promise_of]. rewrite refused_world_promise.
    split; [done|]. split; [done|].
    intros (Hi' & _)%reachable_wf. congruence.
Qed.

(** X2.  The call itself reads no document and writes none: it leaves the
    documents as they are, keeps every promise, pending write and reaction
    that was there, sends at most one write, and gives the same promise and
    the same request over any other contents of the store. *)
Theorem call_only_adds user w h w1 :
  reachable w ->
  createUserProfile user w = (Normal h, w1) ->
  docs w1 = docs w
  /\ (forall p o, promises w !! p = Some o -> promises w1 !! p = Some o)
  /\ (forall p req,
        find_write p (inflight w) = Some req -> find_write p (inflight w1) = Some req)
  /\ (forall q p,
        has_reaction q p (reactions w) = true -> has_reaction q p (reactions w1) = true)
  /\ (length (inflight w1) <= S (length (inflight w)))%nat
  /\ (forall d, createUserProfile user (with_docs d w) = (Normal h, with_docs d w1)).
Proof.
  intros Hr Hc. pose proof (reachable_wf _ Hr) as (Hi & _).
  destruct (createUserProfile_call user w Hi) as [(u & Hu & Hv & E)|(He & E)];
    rewrite E in Hc; injection Hc as <- <-.
  - split; [done|]. split; [|split; [|split; [|split]]].
    + intros p o Hp. unfold sent_world. cbn [promises]. by apply lookup_app_l_Some.
    + intros p req Hp. unfold sent_world. cbn [inflight].
      by rewrite find_write_app, Hp.
    + intros q p Hp. unfold sent_world. cbn [reactions].
      by rewrite has_reaction_app, Hp.
    + unfold sent_world. cbn [inflight]. rewrite length_app. cbn [length]. lia.
    + intros d.
      destruct (createUserProfile_call user (with_docs d w) Hi)
        as [(u' & Hu' & _ & ->)|(He & _)].
      * by assert (u' = u) as -> by congruence.
      * specialize (He _ Hu). congruence.
  - split; [done|]. split; [|split; [done|split; [done|split]]].
    + intros p o Hp. unfold refused_world. cbn [promises with_promises].
      by apply lookup_app_l_Some.
    + unfold refused_world. cbn [inflight with_promises]. lia.
    + intros d.
      destruct (createUserProfile_call user (with_docs d w) Hi)
        as [(u' & Hu' & Hv' & _)|(_ & ->)]; [|done].
      specialize (He _ Hu'). congruence.
Qed.

(** X3.  For a uid that is a single path segment, the commit of the
    invocation's write changes the document of that uid and no other: every
    other path, and so the document of every other single-segment uid, is as
    it was. *)
Theorem commit_touches_one_document user u w h w1 pw req acts w2 t w3 :
  reachable w ->
  get user "uid" = VStr u ->
  single_segment u = true ->
  createUserProfile user w = (Normal h, w1) ->
  awaited_write h w1 = Some (pw, req) ->
  run acts w1 = Some w2 ->
  step (StoreAck pw t) w2 = Some w3 ->
  (forall k, k <> ("users/" ++ u)%string -> docs w3 !! k = docs w2 !! k)
  /\ (forall u', single_segment u' = true -> u' <> u ->
        docs w3 !! ("users/" ++ u')%string = docs w2 !! ("users/" ++ u')%string)
  /\ dom (docs w3) = {[("users/" ++ u)%string]} ∪ dom (docs w2).
Proof.
  intros Hr Hu _ Hc Haw Hrun Hs.
  destruct (commit_writes_profile _ _ _ _ _ _ _ _ _ _ _ Hr Hu Hc Haw Hrun Hs)
    as [_ ->].
  split; [|split].
  - intros k Hk. by rewrite lookup_insert_ne.
  - intros u' _ Hu'. rewrite lookup_insert_ne; [done|].
    intros H%users_path_inj. congruence.
  - apply dom_insert_L.
Qed.



(** X6.  An invocation whose write the store has not answered is pending
    and can still complete, whatever else has happened since the call: the
    store can commit the write, the job can then run, and the invocation's
    promise is fulfilled with the store's result. *)
Theorem pending_invocation_can_complete user w h w1 pw req acts w2 t :
  reachable w ->
  createUserProfile user w = (Normal h, w1) ->
  awaited_write h w1 = Some (pw, req) ->
  run acts w1 = Some w2 ->
  write_answer pw acts = None ->
  promise_of h w2 = Some Pending
  /\ exists ph w3 w4,
      h = VPromise ph
      /\ step (StoreAck pw t) w2 = Some w3
      /\ step (Job pw ph) w3 = Some w4
      /\ promise_of h w4 = Some (Fulfilled (VWriteResult t)).
Proof.
  intros Hr Hc Haw Hrun Ha. pose proof (wf_after_call _ _ _ _ Hr Hc) as Hwf1.
  destruct (invocation _ _ _ _ Hr Hc) as [-> [Hsent|Hrefused]];
    [|destruct Hrefused as (_ & ? & _); congruence].
  destruct Hsent as (u & _ & _ & Haw' & _ & Ht).
  rewrite Haw' in Haw. injection Haw as <- <-.
  pose proof (tracks_run _ _ _ _ _ _ _ Hwf1 Ht Hrun) as (Hne & _ & _ & _ & Hph).
  cbn [app] in Hph. rewrite Ha in Hph. destruct Hph as (Hph & Hpw & Hfw & Hh).
  cbn [promise_of]. split; [done|].
  set (w0 := Firestore.commit
               (WriteRequest ("users/" ++ u) (profile_data user)) t
               (with_inflight (drop_write (S (length (promises w))) (inflight w2)) w2)).
  set (w3 := settle (S (length (promises w))) (Fulfilled (VWriteResult t)) w0).
  destruct (settle_fields (S (length (promises w))) (Fulfilled (VWriteResult t)) w0)
    as (_ & _ & _ & _ & Er & _).
  assert (promises w3 !! S (length (promises w)) = Some (Fulfilled (VWriteResult t)))
    as Hpw3 by (by apply settle_pending).
  assert (promises w3 !! length (promises w) = Some Pending) as Hph3
    by (unfold w3; by rewrite settle_other).
  eexists _, w3, _. split; [done|]. split; [cbn [step]; by rewrite Hfw|].
  cbn [step]. fold w3 in Er. rewrite Er. unfold w0 at 1.
  cbn [reactions Firestore.commit with_docs with_inflight]. rewrite Hh, Hpw3.
  split; [done|]. cbn [promise_of]. by apply settle_pending.
Qed.

Lemma step_docs a w w1 :
  wf w -> step a w = Some w1 ->
  docs w1 = docs w
  \/ exists k d, docs w1 = <[k := d]> (docs w) /\ profile_shaped d.
Proof.
  intros (Hi & Hf & _). destruct a as [user|p t|p e|q p|now]; cbn [step].
  - intros [= <-]. left.
    by destruct (createUserProfile_call user w Hi) as [(u & _ & _ & ->)|(_ & ->)].
  - destruct (find_write p (inflight w)) as [req|] eqn:E; [|done]. intros [= <-].
    right. exists (wr_path req), (encode_doc t (wr_data req)). split.
    + by destruct (settle_fields p (Fulfilled (VWriteResult t))
                     (Firestore.commit req t
                        (with_inflight (drop_write p (inflight w)) w)))
        as (_ & _ & -> & _).
    + by apply (Hf _ _ E).
  - destruct (find_write p (inflight w)) as [req|] eqn:E; [|done]. intros [= <-].
    left.
    by destruct (settle_fields p (Rejected e)
                   (with_inflight (drop_write p (inflight w)) w))
      as (_ & _ & -> & _).
  - intros H. left. by eapply step_job_docs.
  - intros [= <-]. by left.
Qed.

(** X7.  The function never deletes a document and never writes anything
    but a profile: along any history, every path that held a document still
    holds one, and every document of the store is either the one that was
    there before or has exactly the four profile fields with coin 0 and a
    creation time. *)
Theorem documents_only_gain_profiles acts w w2 :
  reachable w ->
  run acts w = Some w2 ->
  dom (docs w) ⊆ dom (docs w2)
  /\ (forall k d, docs w2 !! k = Some d -> docs w !! k = Some d \/ profile_shaped d).
Proof.
  intros Hr%reachable_wf. revert w Hr.
  induction acts as [|a acts IH]; intros w Hwf; cbn [run].
  - intros [= <-]. split; [done|]. intros k d Hk. by left.
  - destruct (step a w) as [w'|] eqn:Hs; [|done]. intros Hrun.
    destruct (IH w' (wf_step _ _ _ Hwf Hs) Hrun) as [Hdom Hdocs].
    destruct (step_docs _ _ _ Hwf Hs) as [E|(k' & d' & E & Hshape)];
      rewrite E in Hdom, Hdocs.
    + split; [done|]. intros k d Hk. by apply Hdocs.
    + split.
      * etrans; [|exact Hdom]. rewrite dom_insert_L. apply union_subseteq_r.
      * intros k d Hk. destruct (Hdocs k d Hk) as [Hk'|Hk']; [|by right].
        destruct (decide (k' = k)) as [->|Hne].
        -- rewrite lookup_insert_eq in Hk'. injection Hk' as <-. by right.
        -- rewrite lookup_insert_ne in Hk' by done. by left.
Qed.

End Provisioner.

(** ** The specification's scenarios and the claims at concrete events *)

(** Closes a goal between closed terms by running both sides. *)
Ltac by_running := vm_compute; reflexivity.

Example run_ada :
  docs (after nonempty_id [Deliver ada; StoreAck 1 1700; Job 1 0] (boot 0 ∅))
  = <["users/abc123" :=
        <["createdAt" := STimestamp 1700]>
          (<["coin" := SInt 0]>
             (<["displayName" := SString "Ada"]>
                (<["email" := SString "a@example.com"]> ∅)))]> ∅.
Proof. by_running. Qed.

Example run_anonymous :
  docs (after nonempty_id [Deliver anonymous; StoreAck 1 1700; Job 1 0] (boot 0 ∅))
  = <["users/xyz789" :=
        <["createdAt" := STimestamp 1700]>
          (<["coin" := SInt 0]>
             (<["displayName" := SNull]> (<["email" := SNull]> ∅)))]> ∅.
Proof. by_running. Qed.

Example run_blank_uid_refused :
  promise_of (VPromise 0) (after nonempty_id [Deliver blank_uid] (boot 0 ∅))
  = Some (Rejected InvalidDocumentPath).
Proof. by_running. Qed.

(** Ada's event, committed and settled: her document is there, with the
    profile's shape. *)
Lemma profile_exists_after_success_witness :
  exists d,
    docs (after nonempty_id [Deliver ada; StoreAck 1 1700; Job 1 0] (boot 0 ∅))
      !! "users/abc123" = Some d
    /\ profile_shaped d.
Proof.
  apply (profile_exists_after_success nonempty_id ada "abc123" (boot 0 ∅)
           (VPromise 0) (createUserProfile nonempty_id ada (boot 0 ∅)).2
           [StoreAck 1 1700; Job 1 0] _ (VWriteResult 1700)).
  - apply reachable_boot.
  - reflexivity.
  - by_running.
  - by_running.
  - by_running.
Defined.

(** C2 as the specification words it fails for an email that is present and
    empty: the event carries the email [""], and the document holds null,
    not the given value. *)
Lemma empty_email_stored_as_null :
  empty_email !! "email" = Some (VStr "")
  /\ empty_email !! "displayName" = None
  /\ (docs (after nonempty_id [Deliver empty_email; StoreAck 1 1700] (boot 0 ∅))
        !! "users/e1") ≫= (.!! "email") = Some SNull
  /\ (docs (after nonempty_id [Deliver empty_email; StoreAck 1 1700] (boot 0 ∅))
        !! "users/e1") ≫= (.!! "email") <> Some (SString "").
Proof.
  split; [reflexivity|]. split; [reflexivity|].
  split; [by_running|].
  intros H. vm_compute in H. discriminate H.
Qed.

(** An event with an email and no display name, and the event whose email
    and display name are both null. *)
Lemma absent_fields_stored_as_null_witness :
  (exists d,
     docs (after nonempty_id [Deliver mail_only; StoreAck 1 1700] (boot 0 ∅))
       !! "users/m1" = Some d
     /\ d !! "email" = Some (SString "m@example.com")
     /\ d !! "displayName" = Some SNull)
  /\ (exists d,
        docs (after nonempty_id [Deliver anonymous; StoreAck 1 1700] (boot 0 ∅))
          !! "users/xyz789" = Some d
        /\ d !! "email" = Some SNull
        /\ d !! "displayName" = Some SNull
        /\ d !! "coin" = Some (SInt 0)).
Proof.
  split.
  - destruct (absent_fields_stored_as_null nonempty_id mail_only "m1" (boot 0 ∅)
                (VPromise 0) (createUserProfile nonempty_id mail_only (boot 0 ∅)).2
                1%nat (WriteRequest "users/m1" (profile_data mail_only)) []
                (createUserProfile nonempty_id mail_only (boot 0 ∅)).2 1700
                (after nonempty_id [Deliver mail_only; StoreAck 1 1700] (boot 0 ∅)))
      as (d & Hd & Hmail & _).
    + apply reachable_boot.
    + reflexivity.
    + by_running.
    + by_running.
    + reflexivity.
    + by_running.
    + exists d. split; [exact Hd|].
      apply (Hmail "m@example.com"); [reflexivity|discriminate|left; reflexivity].
  - destruct (absent_fields_stored_as_null nonempty_id anonymous "xyz789" (boot 0 ∅)
                (VPromise 0) (createUserProfile nonempty_id anonymous (boot 0 ∅)).2
                1%nat (WriteRequest "users/xyz789" (profile_data anonymous)) []
                (createUserProfile nonempty_id anonymous (boot 0 ∅)).2 1700
                (after nonempty_id [Deliver anonymous; StoreAck 1 1700] (boot 0 ∅)))
      as (d & Hd & _ & Hnull & _).
    + apply reachable_boot.
    + reflexivity.
    + by_running.
    + by_running.
    + reflexivity.
    + by_running.
    + exists d. split; [exact Hd|]. apply Hnull; right; reflexivity.
Defined.

(** The store fails Ada's write: her invocation is rejected with the store's
    error. *)
Lemma failure_propagates_witness :
  promise_of (VPromise 0)
    (after nonempty_id
       [Deliver ada; StoreNack 1 (StoreError "unavailable"); Job 1 0] (boot 0 ∅))
  = Some (Rejected (StoreError "unavailable")).
Proof.
  destruct (failure_propagates nonempty_id ada (boot 0 ∅) (VPromise 0)
              (createUserProfile nonempty_id ada (boot 0 ∅)).2
              [StoreNack 1 (StoreError "unavailable"); Job 1 0]
              (after nonempty_id
                 [Deliver ada; StoreNack 1 (StoreError "unavailable"); Job 1 0]
                 (boot 0 ∅)))
    as (_ & Hfail & _).
  - apply reachable_boot.
  - by_running.
  - by_running.
  - destruct (Hfail 1%nat (WriteRequest "users/abc123" (profile_data ada))
                (StoreError "unavailable")) as [H|[H _]].
    + by_running.
    + reflexivity.
    + exact H.
    + vm_compute in H. discriminate H.
Defined.

(** Ada's event delivered twice, the second time with one more property:
    the store holds the same keys after the second handling. *)
Lemma redelivery_is_idempotent_up_to_timestamp_witness :
  dom (docs (after nonempty_id
               [Deliver ada; StoreAck 1 1700; Job 1 0;
                Deliver ada_with_photo; StoreAck 3 1800; Job 3 2] (boot 0 ∅)))
  = dom (docs (after nonempty_id [Deliver ada; StoreAck 1 1700; Job 1 0] (boot 0 ∅))).
Proof.
  destruct (redelivery_is_idempotent_up_to_timestamp nonempty_id ada ada_with_photo
              "abc123" 1700 1800 (boot 0 ∅)
              (after nonempty_id [Deliver ada; StoreAck 1 1700; Job 1 0] (boot 0 ∅))
              (after nonempty_id
                 [Deliver ada; StoreAck 1 1700; Job 1 0;
                  Deliver ada_with_photo; StoreAck 3 1800; Job 3 2] (boot 0 ∅)))
    as (d1 & d2 & _ & _ & _ & _ & _ & _ & _ & Hdom).
  - apply reachable_boot.
  - reflexivity.
  - reflexivity.
  - reflexivity.
  - reflexivity.
  - by_running.
  - by_running.
  - exact Hdom.
Defined.

(** Ada's document exists with 50 coins and a level; after the commit it has
    0 coins and no level. *)
Lemma set_overwrites_prior_document_witness :
  (docs (boot 0 stale_store) !! "users/abc123") ≫= (.!! "coin") = Some (SInt 50)
  /\ (docs (boot 0 stale_store) !! "users/abc123") ≫= (.!! "level") = Some (SInt 3)
  /\ (docs (after nonempty_id [Deliver ada; StoreAck 1 1700] (boot 0 stale_store))
        !! "users/abc123") ≫= (.!! "level") = None
  /\ (docs (after nonempty_id [Deliver ada; StoreAck 1 1700] (boot 0 stale_store))
        !! "users/abc123") ≫= (.!! "coin") = Some (SInt 0).
Proof.
  split; [reflexivity|]. split; [reflexivity|]. split; [by_running|].
  destruct (set_overwrites_prior_document nonempty_id ada "abc123"
              (boot 0 stale_store) (VPromise 0)
              (createUserProfile nonempty_id ada (boot 0 stale_store)).2
              1%nat (WriteRequest "users/abc123" (profile_data ada)) []
              (createUserProfile nonempty_id ada (boot 0 stale_store)).2 1700
              (after nonempty_id [Deliver ada; StoreAck 1 1700] (boot 0 stale_store)))
    as (e & n & _ & _ & _ & Hcoin).
  - apply reachable_boot.
  - reflexivity.
  - by_running.
  - by_running.
  - reflexivity.
  - by_running.
  - exact Hcoin.
Defined.

(** The call on Ada's event with the process clock at 99. *)
Lemma createdAt_is_server_sentinel_witness :
  createUserProfile nonempty_id ada (with_clock 99 (boot 0 ∅))
  = (Normal (VPromise 0),
     with_clock 99 (createUserProfile nonempty_id ada (boot 0 ∅)).2).
Proof.
  destruct (createdAt_is_server_sentinel nonempty_id ada (boot 0 ∅) (VPromise 0)
              (createUserProfile nonempty_id ada (boot 0 ∅)).2
              1%nat (WriteRequest "users/abc123" (profile_data ada)))
    as (_ & _ & Hclock & _).
  - apply reachable_boot.
  - by_running.
  - by_running.
  - apply Hclock.
Defined.

(** Ada's invocation is fulfilled after the history commit, job: the commit
    comes first. *)
Lemma completion_only_after_ack_witness :
  exists t pre post,
    [StoreAck 1 1700; Job 1 0] = pre ++ StoreAck 1 t :: post.
Proof.
  destruct (completion_only_after_ack nonempty_id ada (boot 0 ∅) (VPromise 0)
              (createUserProfile nonempty_id ada (boot 0 ∅)).2
              [StoreAck 1 1700; Job 1 0]
              (after nonempty_id [Deliver ada; StoreAck 1 1700; Job 1 0] (boot 0 ∅)))
    as (Hdone & _).
  - apply reachable_boot.
  - by_running.
  - by_running.
  - destruct (Hdone (VWriteResult 1700))
      as (pw & req & t & pre & post & wp & Haw & Hacts & _).
    + by_running.
    + vm_compute in Haw. injection Haw as <- _. eauto.
Defined.

(** Empty email and display name are both stored as null. *)
Lemma falsy_fields_stored_as_null_witness :
  exists d,
    docs (after nonempty_id [Deliver empty_strings; StoreAck 1 1700] (boot 0 ∅))
      !! "users/e0" = Some d
    /\ d !! "email" = Some SNull
    /\ d !! "displayName" = Some SNull.
Proof.
  destruct (falsy_fields_stored_as_null nonempty_id empty_strings "e0" (boot 0 ∅)
              (VPromise 0) (createUserProfile nonempty_id empty_strings (boot 0 ∅)).2
              1%nat (WriteRequest "users/e0" (profile_data empty_strings)) []
              (createUserProfile nonempty_id empty_strings (boot 0 ∅)).2 1700
              (after nonempty_id [Deliver empty_strings; StoreAck 1 1700] (boot 0 ∅)))
    as (d & Hd & _ & Hnull).
  - apply reachable_boot.
  - reflexivity.
  - by_running.
  - by_running.
  - reflexivity.
  - by_running.
  - exists d. split; [exact Hd|].
    split; apply Hnull; auto.
Defined.

(** C9 as the specification words it fails for an empty identifier and for
    a missing one: [doc] throws, the call is rejected at once, and no write
    is sent. *)
Lemma refused_uid_sends_no_write :
  get blank_uid "uid" = VStr ""
  /\ inflight (createUserProfile nonempty_id blank_uid (boot 0 ∅)).2 = []
  /\ awaited_write (VPromise 0)
       (createUserProfile nonempty_id blank_uid (boot 0 ∅)).2 = None
  /\ promise_of (VPromise 0) (createUserProfile nonempty_id blank_uid (boot 0 ∅)).2
     = Some (Rejected InvalidDocumentPath)
  /\ get no_uid "uid" = VUndefined
  /\ inflight (createUserProfile nonempty_id no_uid (boot 0 ∅)).2 = []
  /\ promise_of (VPromise 0) (createUserProfile nonempty_id no_uid (boot 0 ∅)).2
     = Some (Rejected InvalidDocumentPath).
Proof. repeat split; by_running. Qed.

(** Ada's uid is accepted and her write sent; the empty uid is refused by the
    client and nothing is sent. *)
Lemma uid_checked_only_by_client_witness :
  (exists pw,
     inflight (createUserProfile nonempty_id ada (boot 0 ∅)).2
     = [(pw, WriteRequest "users/abc123" (profile_data ada))])
  /\ inflight (createUserProfile nonempty_id blank_uid (boot 0 ∅)).2 = []
  /\ promise_of (VPromise 0) (createUserProfile nonempty_id blank_uid (boot 0 ∅)).2
     = Some (Rejected InvalidDocumentPath).
Proof.
  split.
  - destruct (uid_checked_only_by_client nonempty_id ada (boot 0 ∅) (VPromise 0)
                (createUserProfile nonempty_id ada (boot 0 ∅)).2)
      as (Hsend & _).
    + apply reachable_boot.
    + by_running.
    + destruct (Hsend "abc123") as (pw & _ & Hin & _); [reflexivity|reflexivity|].
      exists pw. exact Hin.
  - destruct (uid_checked_only_by_client nonempty_id blank_uid (boot 0 ∅) (VPromise 0)
                (createUserProfile nonempty_id blank_uid (boot 0 ∅)).2)
      as (_ & Hrefuse & _).
    + apply reachable_boot.
    + by_running.
    + destruct Hrefuse as (_ & Hin & _ & Hp).
      * intros u [= <-]. reflexivity.
      * split; [exact Hin|exact Hp].
Defined.

(** Ada's record and the same record with a photo make the same call. *)
Lemma write_depends_on_three_fields_witness :
  createUserProfile nonempty_id ada (boot 0 ∅)
  = createUserProfile nonempty_id ada_with_photo (boot 0 ∅).
Proof.
  apply (write_depends_on_three_fields nonempty_id ada ada_with_photo (boot 0 ∅));
    reflexivity.
Defined.

(** ** The further properties at concrete events *)

(** Ada's event in a process that has not loaded the module. *)
Lemma initializeApp_makes_client_available_witness :
  promise_of (VPromise 0) (createUserProfile nonempty_id ada (unloaded 0 ∅)).2
  = Some (Rejected AppNotInitialized).
Proof.
  destruct (initializeApp_makes_client_available nonempty_id ada (unloaded 0 ∅)
              (VPromise 0) (createUserProfile nonempty_id ada (unloaded 0 ∅)).2)
    as ((_ & Hrej) & _ & _).
  - by_running.
  - apply Hrej. reflexivity.
Defined.

(** The call on Ada's event over a store that already holds her document. *)
Lemma call_only_adds_witness :
  createUserProfile nonempty_id ada (with_docs stale_store (boot 0 ∅))
  = (Normal (VPromise 0),
     with_docs stale_store (createUserProfile nonempty_id ada (boot 0 ∅)).2).
Proof.
  destruct (call_only_adds nonempty_id ada (boot 0 ∅) (VPromise 0)
              (createUserProfile nonempty_id ada (boot 0 ∅)).2)
    as (_ & _ & _ & _ & _ & Hdocs).
  - apply reachable_boot.
  - by_running.
  - apply Hdocs.
Defined.

(** Bob's event committed over a store that holds Ada's document: hers keeps
    its 50 coins. *)
Lemma commit_touches_one_document_witness :
  (docs (after nonempty_id [Deliver bob; StoreAck 1 1600] (boot 0 stale_store))
     !! "users/abc123") ≫= (.!! "coin") = Some (SInt 50).
Proof.
  destruct (commit_touches_one_document nonempty_id bob "bob42"
              (boot 0 stale_store) (VPromise 0)
              (createUserProfile nonempty_id bob (boot 0 stale_store)).2
              1%nat (WriteRequest "users/bob42" (profile_data bob)) []
              (createUserProfile nonempty_id bob (boot 0 stale_store)).2 1600
              (after nonempty_id [Deliver bob; StoreAck 1 1600] (boot 0 stale_store)))
    as (_ & Hother & _).
  - apply reachable_boot.
  - reflexivity.
  - reflexivity.
  - by_running.
  - by_running.
  - reflexivity.
  - by_running.
  - pose proof (Hother "abc123" eq_refl ltac:(discriminate)) as E.
    change ("users/" ++ "abc123")%string with "users/abc123" in E.
    rewrite E. by_running.
Defined.


(** Ada's write is in flight while Bob's event is delivered and his write
    fails: hers can still be committed and her invocation fulfilled. *)
Lemma pending_invocation_can_complete_witness :
  exists w3 w4,
    step nonempty_id (StoreAck 1 1700)
      (after nonempty_id
         [Deliver ada; Deliver bob; StoreNack 3 (StoreError "unavailable")]
         (boot 0 ∅)) = Some w3
    /\ step nonempty_id (Job 1 0) w3 = Some w4
    /\ promise_of (VPromise 0) w4 = Some (Fulfilled (VWriteResult 1700)).
Proof.
  destruct (pending_invocation_can_complete nonempty_id ada (boot 0 ∅) (VPromise 0)
              (createUserProfile nonempty_id ada (boot 0 ∅)).2
              1%nat (WriteRequest "users/abc123" (profile_data ada))
              [Deliver bob; StoreNack 3 (StoreError "unavailable")]
              (after nonempty_id
                 [Deliver ada; Deliver bob; StoreNack 3 (StoreError "unavailable")]
                 (boot 0 ∅))
              1700)
    as (_ & ph & w3 & w4 & Hh & Hs1 & Hs2 & Hp).
  - apply reachable_boot.
  - by_running.
  - by_running.
  - by_running.
  - reflexivity.
  - injection Hh as <-. eauto.
Defined.

(** Bob's event committed over a store that holds Ada's document: her path
    still holds a document. *)
Lemma documents_only_gain_profiles_witness :
  dom (docs (boot 0 stale_store))
  ⊆ dom (docs (after nonempty_id [Deliver bob; StoreAck 1 1600] (boot 0 stale_store))).
Proof.
  destruct (documents_only_gain_profiles nonempty_id [Deliver bob; StoreAck 1 1600]
              (boot 0 stale_store)
              (after nonempty_id [Deliver bob; StoreAck 1 1600] (boot 0 stale_store)))
    as (Hdom & _).
  - apply reachable_boot.
  - by_running.
  - exact Hdom.
Defined.
